(** * dev-portfolio: the particle field and the cursor follower

    A shallow embedding of the two runtime loops of the portfolio page:

    - [Portfolio]: [generateParticles], the [useFrame] callback of
      [Constellation] and [handleMouseMove] (the React component file);
    - [Cursor]: the custom-cursor part of the [DOMContentLoaded] script
      ([mousemove] listener, [animateCursor], hover listeners);
    - [Components]: [BlurReveal] and the preview pane of [CaseStudy];
    - [Reveal]: the scroll reveal of the script (the intersection
      observer and its callback);
    - [Theme]: the theme toggle of the script.

    Numbers.  A JavaScript number is modelled as an exact rational ([Q]):
    the arithmetic of the source is kept operator for operator, the
    rounding of each operation to binary64 is not part of the model.  The
    conversion to binary32 that a store into a [Float32Array] performs is
    part of it ([Binary32.fround]).  Equality of numbers is [Qeq] ([==]).
    Division is only used by [handleMouseMove], whose theorems assume a
    viewport of positive size.  Module [Binary64] re-evaluates the literal
    instances of the two smoothing recurrences in IEEE binary64 itself. *)

From Stdlib Require Import QArith Lqa List Arith Lia Bool String Floats.
From Stdlib Require Import Znat Ascii Qround Qpower Qabs.
Import ListNotations.

Open Scope Q_scope.

(** ** Completions and the state-and-exception monad of a callback

    A callback runs to completion on the single UI thread.  It either
    completes normally or throws; what it wrote to the shared state before
    throwing stays written. *)

Module Js.

Inductive error : Type :=
| TypeError.

Inductive completion (A : Type) : Type :=
| Normal (a : A)
| Throw (e : error).

Arguments Normal {A} a.
Arguments Throw {A} e.

Definition M (S A : Type) : Type := S -> completion A * S.

Definition ret {S A : Type} (a : A) : M S A :=
  fun s => (Normal a, s).

Definition bind {S A B : Type} (m : M S A) (k : A -> M S B) : M S B :=
  fun s =>
    match m s with
    | (Normal a, s') => k a s'
    | (Throw e, s') => (Throw e, s')
    end.

Definition throw {S A : Type} (e : error) : M S A :=
  fun s => (Throw e, s).

Definition get {S : Type} : M S S :=
  fun s => (Normal s, s).

Definition put {S : Type} (s : S) : M S unit :=
  fun _ => (Normal tt, s).

Definition modify {S : Type} (f : S -> S) : M S unit :=
  fun s => (Normal tt, f s).

(** The state a callback leaves behind, however it completed. *)
Definition exec {S A : Type} (m : M S A) (s : S) : S := snd (m s).

Definition completes {S A : Type} (m : M S A) (s : S) : bool :=
  match fst (m s) with
  | Normal _ => true
  | Throw _ => false
  end.

End Js.

Notation "x <- m ;; k" := (Js.bind m (fun x => k))
  (at level 61, m at next level, right associativity).
Notation "m ;;; k" := (Js.bind m (fun _ => k))
  (at level 61, right associativity).

(** ** Conversion to binary32

    The value a [Float32Array] holds after a number is stored in it: the
    nearest binary32 number, ties to the even significand.  A binary32
    number is an integer multiple of [2^(e - 23)], where [e] is the exponent
    of its binade and at least [-126].  Numbers of magnitude [2^128] and
    more, which the conversion turns into an infinity, are outside the
    model. *)

Module Binary32.

(** The nearest integer, ties to even. *)
Definition rne (x : Q) : Z :=
  let f := Qfloor x in
  match Qcompare (x - inject_Z f) (1 # 2) with
  | Lt => f
  | Gt => (f + 1)%Z
  | Eq => if Z.even f then f else (f + 1)%Z
  end.

Definition pow2 (k : Z) : Q := 2 ^ k.

(** For [x > 0], the [k] with [2^k <= x < 2^(k + 1)]. *)
Definition ilog2 (x : Q) : Z :=
  let k := (Z.log2 (Qnum x) - Z.log2 (Zpos (Qden x)))%Z in
  if Qle_bool (pow2 k) x then k else (k - 1)%Z.

(** The exponent of the binade of [x]; subnormal numbers share the
    smallest one. *)
Definition exponent (x : Q) : Z := Z.max (-126) (ilog2 (Qabs x)).

(** Rounding to the multiples of [2^(e - 23)]. *)
Definition round_at (e : Z) (x : Q) : Q :=
  let q := pow2 (e - 23) in
  inject_Z (rne (x / q)) * q.

(** [Math.fround] *)
Definition fround (x : Q) : Q := round_at (exponent x) x.

End Binary32.

(** ** The React component file: particle field and pointer state *)

Module Portfolio.

(** *** Typed arrays

    [new Float32Array(n)] is [n] zeros; [a[i] = v] converts [v] to binary32
    and stores it at index [i], and is ignored when [i] is out of range (a
    typed array never grows). *)

Definition Float32Array : Type := list Q.

Definition new_Float32Array (n : nat) : Float32Array := repeat 0 n.

Fixpoint store (a : Float32Array) (i : nat) (v : Q) : Float32Array :=
  match a, i with
  | [], _ => []
  | _ :: a', O => Binary32.fround v :: a'
  | x :: a', S i' => x :: store a' i' v
  end.

Definition load (a : Float32Array) (i : nat) : Q := nth i a 0.

(** *** generateParticles *)

Record Color : Type := mkColor { r : Q; g : Q; b : Q }.

Record Particles : Type := mkParticles {
  positions : Float32Array;
  colors : Float32Array
}.

(** The state of the [for] loop: the two arrays and the number of
    [Math.random()] calls made so far. *)
Record GenState : Type := mkGen {
  gen_positions : Float32Array;
  gen_colors : Float32Array;
  gen_draws : nat
}.

Section Generator.

(** [colorObj] is [new THREE.Color(COLORS.primary)]; its channels are
    computed by three.js.  [random k] is the value returned by the [k]-th
    call of [Math.random()] made by one run of the generator. *)
Variable colorObj : Color.
Variable random : nat -> Q.

(** One iteration of the loop body, for index [i]. *)
Definition generateParticles_body (st : GenState) (i : nat) : GenState :=
  let k := gen_draws st in
  let positions := gen_positions st in
  let colors := gen_colors st in
  let positions := store positions (i * 3) ((random k - 0.5) * 15) in
  let positions := store positions (i * 3 + 1) ((random (k + 1) - 0.5) * 15) in
  let positions := store positions (i * 3 + 2) ((random (k + 2) - 0.5) * 15) in
  let colors := store colors (i * 3) (r colorObj) in
  let colors := store colors (i * 3 + 1) (g colorObj + random (k + 3) * 0.2) in
  let colors := store colors (i * 3 + 2) (b colorObj + random (k + 4) * 0.5) in
  mkGen positions colors (k + 5).

(** [for (let i = 0; i < count; i++) body] *)
Definition generateParticles_loop (count : nat) (st : GenState) : GenState :=
  fold_left generateParticles_body (seq 0 count) st.

Definition generateParticles (count : nat) : Particles :=
  let positions := new_Float32Array (count * 3) in
  let colors := new_Float32Array (count * 3) in
  let st := generateParticles_loop count (mkGen positions colors 0) in
  mkParticles (gen_positions st) (gen_colors st).

(** The bounds the generator is meant to respect: the cube of half-width
    [7.5], and per particle the base red, green jittered by at most [0.2]
    and blue jittered by at most [0.5]. *)
Definition in_cube (v : Q) : Prop := -7.5 <= v /\ v <= 7.5.

Definition particle_color_ok (cs : Float32Array) (i : nat) : Prop :=
  load cs (i * 3) = r colorObj /\
  (g colorObj <= load cs (i * 3 + 1) /\
   load cs (i * 3 + 1) <= g colorObj + 0.2) /\
  (b colorObj <= load cs (i * 3 + 2) /\
   load cs (i * 3 + 2) <= b colorObj + 0.5).

(** The same bounds as the array holds them, each converted to
    binary32. *)
Definition particle_color_rounded (cs : Float32Array) (i : nat) : Prop :=
  load cs (i * 3) = Binary32.fround (r colorObj) /\
  (Binary32.fround (g colorObj) <= load cs (i * 3 + 1) /\
   load cs (i * 3 + 1) <= Binary32.fround (g colorObj + 0.2)) /\
  (Binary32.fround (b colorObj) <= load cs (i * 3 + 2) /\
   load cs (i * 3 + 2) <= Binary32.fround (b colorObj + 0.5)).

(** What [m] iterations of the loop have established on arrays of
    length [n]. *)
Record loop_inv (n m : nat) (st : GenState) : Prop := mkInv {
  inv_positions_length : List.length (gen_positions st) = n;
  inv_colors_length : List.length (gen_colors st) = n;
  inv_draws : gen_draws st = (5 * m)%nat;
  inv_cube : Forall in_cube (gen_positions st);
  inv_colors :
    forall i, (i < m)%nat -> particle_color_rounded (gen_colors st) i
}.

End Generator.

(** The [count] attribute of the two buffer attributes rendered by
    [Constellation]: [array.length / 3]. *)
Definition attribute_count (a : Float32Array) : nat :=
  Nat.div (List.length a) 3.

(** *** The scene: the [points] ref of [Constellation] and the [mouse] ref
    of [Portfolio]

    [points.current] is unset until React attaches the rendered object.
    [mouse.current] always holds a two-element array literal, modelled as a
    pair.  [log] records every read and write of a rotation component, in
    program order. *)

Inductive axis : Type := AxisX | AxisY.

Inductive access : Type :=
| ReadRotation (a : axis)
| WriteRotation (a : axis).

Record Points : Type := mkPoints {
  rotation_x : Q;
  rotation_y : Q
}.

Record Scene : Type := mkScene {
  points_current : option Points;
  mouse_current : Q * Q;
  log : list access
}.

(** [useRef<any>()] and [useRef<number[]>([0, 0])] *)
Definition initial_scene : Scene := mkScene None (0, 0) [].

Definition get_rotation (a : axis) (p : Points) : Q :=
  match a with
  | AxisX => rotation_x p
  | AxisY => rotation_y p
  end.

Definition set_rotation (a : axis) (v : Q) (p : Points) : Points :=
  match a with
  | AxisX => mkPoints v (rotation_y p)
  | AxisY => mkPoints (rotation_x p) v
  end.

(** [points.current.rotation.a]: dereferencing an unset handle throws. *)
Definition read_rotation (a : axis) : Js.M Scene Q :=
  fun s =>
    match points_current s with
    | None => (Js.Throw Js.TypeError, s)
    | Some p =>
        (Js.Normal (get_rotation a p),
         mkScene (Some p) (mouse_current s) (log s ++ [ReadRotation a]))
    end.

(** [points.current.rotation.a = v] *)
Definition write_rotation (a : axis) (v : Q) : Js.M Scene unit :=
  fun s =>
    match points_current s with
    | None => (Js.Throw Js.TypeError, s)
    | Some p =>
        (Js.Normal tt,
         mkScene (Some (set_rotation a v p)) (mouse_current s)
                 (log s ++ [WriteRotation a]))
    end.

Definition read_points_current : Js.M Scene (option Points) :=
  fun s => (Js.Normal (points_current s), s).

(** [mouse.current[0]] and [mouse.current[1]] *)
Definition read_mouse_0 : Js.M Scene Q :=
  fun s => (Js.Normal (fst (mouse_current s)), s).

Definition read_mouse_1 : Js.M Scene Q :=
  fun s => (Js.Normal (snd (mouse_current s)), s).

(** *** The [useFrame] callback of [Constellation] *)

(** [points.current.rotation.a += (target - points.current.rotation.a) * 0.05]:
    a compound assignment reads its left-hand side, evaluates its
    right-hand side (which reads the component again), and stores the sum. *)
Definition smooth_rotation (a : axis) (target : Q) : Js.M Scene unit :=
  old <- read_rotation a ;;
  cur <- read_rotation a ;;
  write_rotation a (old + (target - cur) * 0.05).

(** The rotation accesses of one smoothing statement, in order. *)
Definition smooth_accesses (a : axis) : list access :=
  [ReadRotation a; ReadRotation a; WriteRotation a].

(** [time] is [state.clock.getElapsedTime()]. *)
Definition useFrame_callback (time : Q) : Js.M Scene unit :=
  current <- read_points_current ;;
  match current with
  | None => Js.ret tt
  | Some _ =>
      write_rotation AxisX (time * 0.05) ;;;
      write_rotation AxisY (time * 0.03) ;;;
      m0 <- read_mouse_0 ;;
      let targetX := m0 * 0.5 in
      m1 <- read_mouse_1 ;;
      let targetY := m1 * 0.5 in
      smooth_rotation AxisX targetY ;;;
      smooth_rotation AxisY targetX
  end.

(** The rotation of the rendered object, when there is one. *)
Definition rotation (a : axis) (s : Scene) : option Q :=
  option_map (get_rotation a) (points_current s).

(** *** handleMouseMove

    [clientX], [clientY] are the event's coordinates, [innerWidth] and
    [innerHeight] the size of the window. *)
Definition handleMouseMove (clientX clientY innerWidth innerHeight : Q)
  : Js.M Scene unit :=
  Js.modify (fun s =>
    mkScene (points_current s)
            ((clientX / innerWidth) * 2 - 1,
             (- (clientY / innerHeight)) * 2 + 1)
            (log s)).

(** *** The events the scene receives

    React attaches or detaches the [points] ref, the pointer moves over the
    page, the renderer calls the frame callback. *)
Inductive event : Type :=
| AttachRef (p : option Points)
| MouseMove (clientX clientY innerWidth innerHeight : Q)
| Frame (time : Q).

Definition dispatch (s : Scene) (ev : event) : Scene :=
  match ev with
  | AttachRef p => mkScene p (mouse_current s) (log s)
  | MouseMove cx cy w h => Js.exec (handleMouseMove cx cy w h) s
  | Frame time => Js.exec (useFrame_callback time) s
  end.

Definition run (evs : list event) (s : Scene) : Scene :=
  fold_left dispatch evs s.

(** A pointer event inside a viewport of positive size. *)
Definition in_viewport (ev : event) : Prop :=
  match ev with
  | MouseMove cx cy w h => 0 < w /\ 0 < h /\ 0 <= cx <= w /\ 0 <= cy <= h
  | _ => True
  end.

Definition normalized (m : Q * Q) : Prop :=
  (-1 <= fst m <= 1) /\ (-1 <= snd m <= 1).

End Portfolio.

(** ** The page script: the cursor follower *)

Module Cursor.

(** The inline style of a cursor element, as far as the script writes it.
    [style_left = Some v] stands for the string [`${v}px`]; [None] for a
    property the script has not set. *)
Record Style : Type := mkStyle {
  style_left : option Q;
  style_top : option Q;
  style_transform : string;
  style_backgroundColor : string
}.

Definition with_left (v : Q) (st : Style) : Style :=
  mkStyle (Some v) (style_top st) (style_transform st)
          (style_backgroundColor st).

Definition with_top (v : Q) (st : Style) : Style :=
  mkStyle (style_left st) (Some v) (style_transform st)
          (style_backgroundColor st).

Definition with_transform (v : string) (st : Style) : Style :=
  mkStyle (style_left st) (style_top st) v (style_backgroundColor st).

Definition with_backgroundColor (v : string) (st : Style) : Style :=
  mkStyle (style_left st) (style_top st) (style_transform st) v.

(** A callback handed to [requestAnimationFrame]. *)
Inductive callback : Type :=
| AnimateCursor.

(** The variables of the [DOMContentLoaded] closure, the two elements
    ([None] when [getElementById] returned [null]), the frame requests the
    host has pending, and which listeners are registered. *)
Record World : Type := mkWorld {
  mouseX : Q;
  mouseY : Q;
  outlineX : Q;
  outlineY : Q;
  cursorDot : option Style;
  cursorOutline : option Style;
  frame_requests : list callback;
  mousemove_listener : bool;
  hover_listeners : bool
}.

Definition set_mouseX (v : Q) (w : World) : World :=
  mkWorld v (mouseY w) (outlineX w) (outlineY w) (cursorDot w)
          (cursorOutline w) (frame_requests w) (mousemove_listener w)
          (hover_listeners w).

Definition set_mouseY (v : Q) (w : World) : World :=
  mkWorld (mouseX w) v (outlineX w) (outlineY w) (cursorDot w)
          (cursorOutline w) (frame_requests w) (mousemove_listener w)
          (hover_listeners w).

Definition set_outlineX (v : Q) (w : World) : World :=
  mkWorld (mouseX w) (mouseY w) v (outlineY w) (cursorDot w)
          (cursorOutline w) (frame_requests w) (mousemove_listener w)
          (hover_listeners w).

Definition set_outlineY (v : Q) (w : World) : World :=
  mkWorld (mouseX w) (mouseY w) (outlineX w) v (cursorDot w)
          (cursorOutline w) (frame_requests w) (mousemove_listener w)
          (hover_listeners w).

Definition set_cursorDot (v : option Style) (w : World) : World :=
  mkWorld (mouseX w) (mouseY w) (outlineX w) (outlineY w) v
          (cursorOutline w) (frame_requests w) (mousemove_listener w)
          (hover_listeners w).

Definition set_cursorOutline (v : option Style) (w : World) : World :=
  mkWorld (mouseX w) (mouseY w) (outlineX w) (outlineY w) (cursorDot w)
          v (frame_requests w) (mousemove_listener w) (hover_listeners w).

Definition set_frame_requests (v : list callback) (w : World) : World :=
  mkWorld (mouseX w) (mouseY w) (outlineX w) (outlineY w) (cursorDot w)
          (cursorOutline w) v (mousemove_listener w) (hover_listeners w).

Definition set_mousemove_listener (v : bool) (w : World) : World :=
  mkWorld (mouseX w) (mouseY w) (outlineX w) (outlineY w) (cursorDot w)
          (cursorOutline w) (frame_requests w) v (hover_listeners w).

Definition set_hover_listeners (v : bool) (w : World) : World :=
  mkWorld (mouseX w) (mouseY w) (outlineX w) (outlineY w) (cursorDot w)
          (cursorOutline w) (frame_requests w) (mousemove_listener w) v.

(** [cursorDot.style.p = v]: throws when the element is [null]. *)
Definition update_dot (f : Style -> Style) : Js.M World unit :=
  fun w =>
    match cursorDot w with
    | None => (Js.Throw Js.TypeError, w)
    | Some st => (Js.Normal tt, set_cursorDot (Some (f st)) w)
    end.

(** [cursorOutline.style.p = v] *)
Definition update_outline (f : Style -> Style) : Js.M World unit :=
  fun w =>
    match cursorOutline w with
    | None => (Js.Throw Js.TypeError, w)
    | Some st => (Js.Normal tt, set_cursorOutline (Some (f st)) w)
    end.

Definition requestAnimationFrame (cb : callback) : Js.M World unit :=
  Js.modify (fun w => set_frame_requests (frame_requests w ++ [cb]) w).

(** The [mousemove] listener. *)
Definition onMouseMove (clientX clientY : Q) : Js.M World unit :=
  Js.modify (set_mouseX clientX) ;;;
  Js.modify (set_mouseY clientY) ;;;
  w <- Js.get ;;
  update_dot (with_left (mouseX w)) ;;;
  update_dot (with_top (mouseY w)).

Definition animateCursor : Js.M World unit :=
  let speed := 0.5 in
  Js.modify (fun w =>
    set_outlineX (outlineX w + (mouseX w - outlineX w) * speed) w) ;;;
  Js.modify (fun w =>
    set_outlineY (outlineY w + (mouseY w - outlineY w) * speed) w) ;;;
  w <- Js.get ;;
  update_outline (with_left (outlineX w)) ;;;
  update_outline (with_top (outlineY w)) ;;;
  requestAnimationFrame AnimateCursor.

(** The [mouseenter] and [mouseleave] listeners of an interactive element. *)
Definition onMouseEnter : Js.M World unit :=
  update_outline (with_transform "translate(-50%, -50%) scale(1.5)") ;;;
  update_outline (with_backgroundColor "rgba(255, 255, 255, 0.1)") ;;;
  update_dot (with_transform "translate(-50%, -50%) scale(0.5)").

Definition onMouseLeave : Js.M World unit :=
  update_outline (with_transform "translate(-50%, -50%) scale(1)") ;;;
  update_outline (with_backgroundColor "transparent") ;;;
  update_dot (with_transform "translate(-50%, -50%) scale(1)").

(** The closure state when the [DOMContentLoaded] handler has looked the
    two elements up and declared its four variables. *)
Definition loaded (dot outline : option Style) : World :=
  mkWorld 0 0 0 0 dot outline [] false false.

(** The rest of the handler, down to the hover listeners: it registers
    the [mousemove] listener, calls [animateCursor] once, and registers the
    hover listeners. *)
Definition domContentLoaded : Js.M World unit :=
  Js.modify (set_mousemove_listener true) ;;;
  animateCursor ;;;
  Js.modify (set_hover_listeners true).

Definition run_callback (cb : callback) : Js.M World unit :=
  match cb with
  | AnimateCursor => animateCursor
  end.

(** What the host delivers: pointer events, and display refreshes, on
    which it runs the callbacks requested since the previous refresh. *)
Inductive event : Type :=
| MouseMove (clientX clientY : Q)
| MouseEnter
| MouseLeave
| AnimationFrame.

Definition dispatch (w : World) (ev : event) : World :=
  match ev with
  | MouseMove cx cy =>
      if mousemove_listener w then Js.exec (onMouseMove cx cy) w else w
  | MouseEnter =>
      if hover_listeners w then Js.exec onMouseEnter w else w
  | MouseLeave =>
      if hover_listeners w then Js.exec onMouseLeave w else w
  | AnimationFrame =>
      fold_left (fun w' cb => Js.exec (run_callback cb) w')
                (frame_requests w) (set_frame_requests [] w)
  end.

Definition run (evs : list event) (w : World) : World :=
  fold_left dispatch evs w.

(** The page after start-up and the events [evs]. *)
Definition page (dot outline : option Style) (evs : list event) : World :=
  run evs (Js.exec domContentLoaded (loaded dot outline)).

(** The scale and fill part of the cursor's state. *)
Definition hover_state (w : World)
  : option (string * string) * option string :=
  (option_map (fun st => (style_transform st, style_backgroundColor st))
              (cursorOutline w),
   option_map style_transform (cursorDot w)).


End Cursor.

(** ** The literal instances in binary64

    The two smoothing statements with the operators of IEEE 754 binary64,
    the number type of the JavaScript runtime. *)

Module Binary64.

#[local] Set Warnings "-inexact-float".

Definition parallax_step (rotation target : float) : float :=
  (rotation + (target - rotation) * 0.05)%float.

Definition ease_step (outline mouse : float) : float :=
  (outline + (mouse - outline) * 0.5)%float.

Definition lit_0_05 : float := 0.05%float.
Definition lit_0_0975 : float := 0.0975%float.

End Binary64.

(** ** The UI components of the React file that compute something *)

Module Components.

(** *** BlurReveal *)

Definition is_space (c : ascii) : bool := Ascii.eqb c " "%char.

(** [text.split(" ")]: the pieces between single spaces; never empty, and
    empty pieces are kept. *)
Fixpoint split_space (text : string) : list string :=
  match text with
  | EmptyString => [EmptyString]
  | String c rest =>
      if is_space c then EmptyString :: split_space rest
      else match split_space rest with
           | word :: words => String c word :: words
           | [] => [String c EmptyString]
           end
  end.

(** One [motion.span]: its key, its text, and the delay and duration of
    its transition. *)
Record WordSpan : Type := mkWordSpan {
  span_key : nat;
  span_word : string;
  span_delay : Q;
  span_duration : Q
}.

(** [words.map((word, i) => ...)], from index [i]. *)
Fixpoint map_words (delay : Q) (i : nat) (words : list string)
  : list WordSpan :=
  match words with
  | [] => []
  | word :: rest =>
      mkWordSpan i word (delay + (inject_Z (Z.of_nat i) * 0.15)) 0.8
        :: map_words delay (S i) rest
  end.

(** The children of the [span] rendered by [BlurReveal]; [delay] is [0]
    when the prop is omitted. *)
Definition BlurReveal (text : string) (delay : option Q) : list WordSpan :=
  let delay := match delay with Some d => d | None => 0 end in
  let words := split_space text in
  map_words delay 0 words.

(** *** CaseStudy: the preview pane *)

Inductive PreviewBody : Type :=
| DemoLink (href alt : string)
| Placeholder (hostname : string).

(** What the second grid column shows: the [media] node handed in, or a
    browser mock-up with a host name in its title bar, a body, and
    possibly the Lighthouse badge. *)
Inductive Preview (Node : Type) : Type :=
| CustomMedia (media : Node)
| BrowserMock (hostname : string) (body : PreviewBody) (lighthouse : bool).

Arguments CustomMedia {Node} media.
Arguments BrowserMock {Node} hostname body lighthouse.

Section CaseStudy.

(** [URL_hostname s] is [new URL(s).hostname], [None] when the constructor
    throws its [TypeError]; the parser is the host's. *)
Variable URL_hostname : string -> option string.
Variable Node : Type.

(** JavaScript truthiness of an optional string prop. *)
Definition truthy (demoUrl : option string) : bool :=
  match demoUrl with
  | None => false
  | Some EmptyString => false
  | Some _ => true
  end.

(** The constructor converts its argument to a string first. *)
Definition to_string (demoUrl : option string) : string :=
  match demoUrl with
  | None => "undefined"
  | Some s => s
  end.

(** [new URL(demoUrl).hostname] *)
Definition new_URL_hostname (demoUrl : option string) : Js.M unit string :=
  match URL_hostname (to_string demoUrl) with
  | Some host => Js.ret host
  | None => Js.throw Js.TypeError
  end.

(** The expressions of the preview pane, evaluated in source order;
    [media = None] stands for an absent or falsy node. *)
Definition CaseStudy_preview (title : string) (media : option Node)
    (demoUrl : option string) : Js.M unit (Preview Node) :=
  match media with
  | Some m => Js.ret (CustomMedia m)
  | None =>
      hostname <- (if truthy demoUrl then new_URL_hostname demoUrl
                   else Js.ret "preview.vercel.app"%string) ;;
      body <- (if truthy demoUrl
               then Js.ret (DemoLink (to_string demoUrl)
                                     ("Preview of " ++ title))
               else (host <- new_URL_hostname demoUrl ;;
                     Js.ret (Placeholder host))) ;;
      let lighthouse := negb (truthy demoUrl) in
      Js.ret (BrowserMock hostname body lighthouse)
  end.

End CaseStudy.

End Components.

(** ** The page script: the scroll reveal *)

Module Reveal.

(** An element of the document, as far as the script touches it: its
    class list and three inline style properties. *)
Record Element : Type := mkElement {
  classList : list string;
  style_opacity : string;
  style_transform : string;
  style_transition : string
}.

(** [classList.add(token)]: a class list holds a token at most once. *)
Definition add_token (token : string) (tokens : list string) : list string :=
  if existsb (String.eqb token) tokens then tokens else tokens ++ [token].

Definition classList_add (token : string) (el : Element) : Element :=
  mkElement (add_token token (classList el)) (style_opacity el)
            (style_transform el) (style_transition el).

(** The elements of the document by node, the targets the observer
    watches, and whether the [.in-view] rule has been added to the
    document. *)
Record World : Type := mkWorld {
  nodes : nat -> Element;
  observed : list nat;
  in_view_rule : bool
}.

Definition update_node (target : nat) (f : Element -> Element) (w : World)
  : World :=
  mkWorld (fun n => if Nat.eqb n target then f (nodes w n) else nodes w n)
          (observed w) (in_view_rule w).

Definition is_observed (target : nat) (w : World) : bool :=
  existsb (Nat.eqb target) (observed w).

(** [observer.observe(el)] and [observer.unobserve(el)] *)
Definition observe (target : nat) (w : World) : World :=
  if is_observed target w then w
  else mkWorld (nodes w) (observed w ++ [target]) (in_view_rule w).

Definition unobserve (target : nat) (w : World) : World :=
  mkWorld (nodes w)
          (filter (fun n => negb (Nat.eqb target n)) (observed w))
          (in_view_rule w).

(** The body of [entries.forEach] in the observer's callback; an entry is
    its target and its [isIntersecting]. *)
Definition on_entry (w : World) (entry : nat * bool) : World :=
  let (target, isIntersecting) := entry in
  if isIntersecting
  then unobserve target (update_node target (classList_add "in-view") w)
  else w.

Definition observer_callback (entries : list (nat * bool)) (w : World)
  : World :=
  fold_left on_entry entries w.

(** The body of [animatedElements.forEach]. *)
Definition hide_and_observe (w : World) (el : nat) : World :=
  let w := update_node el (fun e =>
             mkElement (classList e) "0" (style_transform e)
                       (style_transition e)) w in
  let w := update_node el (fun e =>
             mkElement (classList e) (style_opacity e) "translateY(20px)"
                       (style_transition e)) w in
  let w := update_node el (fun e =>
             mkElement (classList e) (style_opacity e) (style_transform e)
                       "opacity 0.6s ease-out, transform 0.6s ease-out") w in
  observe el w.

(** The scroll-reveal part of the start-up handler: a new observer, the
    loop over [animatedElements] (the result of [querySelectorAll]), and
    the style sheet with the [.in-view] rule. *)
Definition setup (document : nat -> Element) (animatedElements : list nat)
  : World :=
  let w := fold_left hide_and_observe animatedElements
                     (mkWorld document [] false) in
  mkWorld (nodes w) (observed w) true.

(** The host calls the callback with a batch of entries; it reports only
    targets the observer watches when the batch is delivered. *)
Definition deliver (w : World) (entries : list (nat * bool)) : World :=
  observer_callback (filter (fun e => is_observed (fst e) w) entries) w.

Definition run (batches : list (list (nat * bool))) (w : World) : World :=
  fold_left deliver batches w.

Definition revealed (w : World) (el : nat) : Prop :=
  In "in-view"%string (classList (nodes w el)).

(** The opacity an element is shown with: the [.in-view] rule is
    [!important] and beats the inline style. *)
Definition shown_opacity (w : World) (el : nat) : string :=
  if in_view_rule w && existsb (String.eqb "in-view") (classList (nodes w el))
  then "1"
  else style_opacity (nodes w el).

(** Some delivered batch reported [el] as intersecting. *)
Definition intersected (batches : list (list (nat * bool))) (el : nat)
  : Prop :=
  exists batch, In batch batches /\ In (el, true) batch.

(** The inline style the start-up loop gives an element. *)
Definition hidden (tokens : list string) : Element :=
  mkElement tokens "0" "translateY(20px)"
            "opacity 0.6s ease-out, transform 0.6s ease-out".

(** The two states of an animated element of the document [document]:
    watched, with the class list of the markup, as long as [hit] has not
    happened; not watched, with [in-view] added, once it has. *)
Definition animated_state (document : nat -> Element) (w : World)
    (el : nat) (hit : Prop) : Prop :=
  (is_observed el w = true /\
   nodes w el = hidden (classList (document el)) /\ ~ hit) \/
  (is_observed el w = false /\
   nodes w el = hidden (add_token "in-view" (classList (document el))) /\
   hit).

(** An element outside the selection: not watched, as in the markup. *)
Definition untouched (document : nat -> Element) (w : World) (el : nat)
  : Prop :=
  is_observed el w = false /\ nodes w el = document el.

Definition is_animated (animatedElements : list nat) (el : nat) : bool :=
  existsb (Nat.eqb el) animatedElements.

(** The state of the whole document, [hit el] telling for each animated
    element whether it has been reported as intersecting. *)
Definition page_state (document : nat -> Element)
    (animatedElements : list nat) (w : World) (hit : nat -> Prop) : Prop :=
  forall el,
    if is_animated animatedElements el
    then animated_state document w el (hit el)
    else untouched document w el.

End Reveal.

(** ** The page script: the theme toggle *)

Module Theme.

(** The custom properties set inline on the root element. *)
Definition Properties : Type := string -> option string.

Definition setProperty (name value : string) (ps : Properties) : Properties :=
  fun n => if String.eqb n name then Some value else ps n.

Definition removeProperty (name : string) (ps : Properties) : Properties :=
  fun n => if String.eqb n name then None else ps n.

(** [isDark], the root element's inline custom properties, the inline
    background colour of the dot and border colour of the outline ([None]
    when the page lacks the element). *)
Record World : Type := mkWorld {
  isDark : bool;
  root_style : Properties;
  dot_backgroundColor : option string;
  outline_borderColor : option string
}.

Definition root_setProperty (name value : string) : Js.M World unit :=
  Js.modify (fun w =>
    mkWorld (isDark w) (setProperty name value (root_style w))
            (dot_backgroundColor w) (outline_borderColor w)).

Definition root_removeProperty (name : string) : Js.M World unit :=
  Js.modify (fun w =>
    mkWorld (isDark w) (removeProperty name (root_style w))
            (dot_backgroundColor w) (outline_borderColor w)).

(** [cursorDot.style.backgroundColor = v] *)
Definition set_dot_backgroundColor (v : string) : Js.M World unit :=
  fun w =>
    match dot_backgroundColor w with
    | None => (Js.Throw Js.TypeError, w)
    | Some _ =>
        (Js.Normal tt,
         mkWorld (isDark w) (root_style w) (Some v) (outline_borderColor w))
    end.

(** [cursorOutline.style.borderColor = v] *)
Definition set_outline_borderColor (v : string) : Js.M World unit :=
  fun w =>
    match outline_borderColor w with
    | None => (Js.Throw Js.TypeError, w)
    | Some _ =>
        (Js.Normal tt,
         mkWorld (isDark w) (root_style w) (dot_backgroundColor w) (Some v))
    end.

(** The [click] listener of the theme toggle. *)
Definition onThemeToggle : Js.M World unit :=
  Js.modify (fun w =>
    mkWorld (negb (isDark w)) (root_style w) (dot_backgroundColor w)
            (outline_borderColor w)) ;;;
  w <- Js.get ;;
  if negb (isDark w) then
    root_setProperty "--bg-color" "#ffffff" ;;;
    root_setProperty "--text-color" "#111111" ;;;
    root_setProperty "--text-secondary" "#555555" ;;;
    root_setProperty "--surface" "#f3f4f6" ;;;
    root_setProperty "--border" "#e5e7eb" ;;;
    set_dot_backgroundColor "#111" ;;;
    set_outline_borderColor "rgba(0,0,0,0.5)"
  else
    root_removeProperty "--bg-color" ;;;
    root_removeProperty "--text-color" ;;;
    root_removeProperty "--text-secondary" ;;;
    root_removeProperty "--surface" ;;;
    root_removeProperty "--border" ;;;
    set_dot_backgroundColor EmptyString ;;;
    set_outline_borderColor EmptyString.

(** [let isDark = true], on a page whose root and cursor elements have
    the given inline styles.  The listener is registered after
    [animateCursor] has run once, so the page has the outline element; it
    may lack the dot. *)
Definition loaded (root : Properties) (dot : option string)
    (outline : string) : World :=
  mkWorld true root dot (Some outline).

Definition clicks (n : nat) (w : World) : World :=
  Nat.iter n (Js.exec onThemeToggle) w.

(** The five custom properties of the light theme. *)
Definition light_theme : list (string * string) :=
  [("--bg-color", "#ffffff"); ("--text-color", "#111111");
   ("--text-secondary", "#555555"); ("--surface", "#f3f4f6");
   ("--border", "#e5e7eb")]%string.

Definition light_value (name : string) : option string :=
  option_map snd
    (find (fun entry => String.eqb name (fst entry)) light_theme).

(** Two worlds a page cannot tell apart. *)
Definition same_theme (w1 w2 : World) : Prop :=
  isDark w1 = isDark w2 /\
  (forall name, root_style w1 name = root_style w2 name) /\
  dot_backgroundColor w1 = dot_backgroundColor w2 /\
  outline_borderColor w1 = outline_borderColor w2.

End Theme.

(** * Properties *)

(** ** Conversion to binary32 is monotone *)

Section Binary32Facts.

Import Binary32.

Lemma rne_bounds (x : Q) : (Qfloor x <= rne x <= Qfloor x + 1)%Z.
Proof.
  unfold rne; destruct (Qcompare _ _); [destruct (Z.even _) | |]; lia.
Qed.

Lemma rne_comp (x y : Q) : x == y -> rne x = rne y.
Proof.
  intros Hxy; unfold rne.
  rewrite (Qfloor_comp x y Hxy).
  assert (H : x - inject_Z (Qfloor y) == y - inject_Z (Qfloor y))
    by (rewrite Hxy; reflexivity).
  rewrite H; reflexivity.
Qed.

Lemma rne_Z (n : Z) : rne (inject_Z n) = n.
Proof.
  unfold rne; rewrite Qfloor_Z.
  assert (H : inject_Z n - inject_Z n < 1 # 2) by lra.
  rewrite Qlt_alt in H; rewrite H; reflexivity.
Qed.

Lemma rne_le (x y : Q) : x <= y -> (rne x <= rne y)%Z.
Proof.
  intros Hxy.
  pose proof (Qfloor_resp_le x y Hxy) as Hf.
  pose proof (rne_bounds x) as Bx; pose proof (rne_bounds y) as By.
  destruct (Z.eq_dec (Qfloor x) (Qfloor y)) as [E | NE]; [| lia].
  unfold rne in *; rewrite <- E in *.
  destruct (Qcompare_spec (x - inject_Z (Qfloor x)) (1 # 2)) as [Hx | Hx | Hx];
    destruct (Qcompare_spec (y - inject_Z (Qfloor x)) (1 # 2)) as [Hy | Hy | Hy];
    try destruct (Z.even (Qfloor x)); try lia; lra.
Qed.

Lemma pow2_pos (k : Z) : 0 < pow2 k.
Proof. apply Qpower_0_lt; reflexivity. Qed.

Lemma pow2_plus (a b : Z) : pow2 (a + b) == pow2 a * pow2 b.
Proof. apply Qpower_plus; discriminate. Qed.

Lemma pow2_le (a b : Z) : (a <= b)%Z -> pow2 a <= pow2 b.
Proof. intros H; apply Qpower_le_compat_l; [exact H | discriminate]. Qed.

Lemma pow2_lt_inv (a b : Z) : pow2 a < pow2 b -> (a < b)%Z.
Proof. intros H; apply (Qpower_lt_compat_l_inv 2); [exact H | reflexivity]. Qed.

Lemma pow2_Z (k : Z) : (0 <= k)%Z -> pow2 k == inject_Z (2 ^ k).
Proof. intros H; unfold pow2; rewrite Zpower_Qpower by exact H; reflexivity. Qed.

Lemma ilog2_spec (x : Q) :
  0 < x -> pow2 (ilog2 x) <= x /\ x < pow2 (ilog2 x + 1).
Proof.
  intros Hx; destruct x as [n d]; unfold ilog2; cbn [Qnum Qden].
  assert (Hn : (0 < n)%Z) by (unfold Qlt in Hx; simpl in Hx; lia).
  destruct (Z.log2_spec n Hn) as [Hn1 Hn2].
  destruct (Z.log2_spec (Zpos d) (Pos2Z.is_pos d)) as [Hd1 Hd2].
  pose proof (Z.log2_nonneg n) as Ha; pose proof (Z.log2_nonneg (Zpos d)) as Hb.
  set (a := Z.log2 n) in *; set (b := Z.log2 (Zpos d)) in *.
  assert (Hq : n # d == inject_Z n / inject_Z (Zpos d))
    by (rewrite Qmake_Qdiv; reflexivity).
  assert (Hdpos : 0 < inject_Z (Zpos d)) by reflexivity.
  assert (Hna : pow2 a <= inject_Z n)
    by (rewrite pow2_Z by lia; rewrite <- Zle_Qle; exact Hn1).
  assert (Hna' : inject_Z n < pow2 (a + 1))
    by (rewrite pow2_Z by lia; rewrite <- Zlt_Qlt;
        replace (a + 1)%Z with (Z.succ a) by lia; exact Hn2).
  assert (Hdb : pow2 b <= inject_Z (Zpos d))
    by (rewrite pow2_Z by lia; rewrite <- Zle_Qle; exact Hd1).
  assert (Hdb' : inject_Z (Zpos d) < pow2 (b + 1))
    by (rewrite pow2_Z by lia; rewrite <- Zlt_Qlt;
        replace (b + 1)%Z with (Z.succ b) by lia; exact Hd2).
  assert (Hup : n # d < pow2 (a - b + 1)).
  { rewrite Hq; apply Qlt_shift_div_r; [exact Hdpos |].
    apply Qlt_le_trans with (pow2 (a + 1)); [exact Hna' |].
    replace (a + 1)%Z with ((a - b + 1) + b)%Z by lia.
    rewrite pow2_plus.
    apply Qmult_le_l; [apply pow2_pos | exact Hdb]. }
  assert (Hlo : pow2 (a - b - 1) <= n # d).
  { rewrite Hq; apply Qle_shift_div_l; [exact Hdpos |].
    apply Qle_trans with (pow2 a); [| exact Hna].
    replace a with ((a - b - 1) + (b + 1))%Z at 2 by lia.
    rewrite pow2_plus.
    apply Qmult_le_l; [apply pow2_pos | apply Qlt_le_weak, Hdb']. }
  destruct (Qle_bool (pow2 (a - b)) (n # d)) eqn:E.
  - apply Qle_bool_iff in E; split; [exact E | exact Hup].
  - split; [exact Hlo |].
    replace (a - b - 1 + 1)%Z with (a - b)%Z by lia.
    apply Qnot_le_lt; intros H; apply Qle_bool_iff in H; congruence.
Qed.

Lemma round_at_le (e : Z) (x y : Q) :
  x <= y -> round_at e x <= round_at e y.
Proof.
  intros Hxy; unfold round_at.
  pose proof (pow2_pos (e - 23)) as Hq.
  apply Qmult_le_compat_r; [| apply Qlt_le_weak, Hq].
  rewrite <- Zle_Qle; apply rne_le.
  unfold Qdiv; apply Qmult_le_compat_r; [exact Hxy |].
  apply Qlt_le_weak, Qinv_lt_0_compat, Hq.
Qed.

Lemma round_at_exact (e n : Z) (x : Q) :
  x == inject_Z n * pow2 (e - 23) -> round_at e x == x.
Proof.
  intros Hx; unfold round_at.
  pose proof (pow2_pos (e - 23)) as Hq.
  rewrite (rne_comp (x / pow2 (e - 23)) (inject_Z n)), rne_Z.
  - symmetry; exact Hx.
  - rewrite Hx; field; lra.
Qed.

Lemma round_at_pow2 (e k : Z) :
  (e - 23 <= k)%Z -> round_at e (pow2 k) == pow2 k.
Proof.
  intros Hk; apply (round_at_exact e (2 ^ (k - (e - 23)))).
  rewrite <- pow2_Z by lia; rewrite <- pow2_plus.
  replace (k - (e - 23) + (e - 23))%Z with k by lia; reflexivity.
Qed.

Lemma round_at_opp_pow2 (e k : Z) :
  (e - 23 <= k)%Z -> round_at e (- pow2 k) == - pow2 k.
Proof.
  intros Hk; apply (round_at_exact e (- 2 ^ (k - (e - 23)))).
  rewrite inject_Z_opp, <- pow2_Z by lia.
  setoid_replace (- pow2 (k - (e - 23)) * pow2 (e - 23))
    with (- (pow2 (k - (e - 23)) * pow2 (e - 23))) by ring.
  rewrite <- pow2_plus.
  replace (k - (e - 23) + (e - 23))%Z with k by lia; reflexivity.
Qed.

Lemma fround_nonneg (x : Q) : 0 <= x -> 0 <= fround x.
Proof.
  intros Hx; unfold fround.
  apply Qle_trans with (round_at (exponent x) 0); [| apply round_at_le, Hx].
  rewrite (round_at_exact _ 0); [lra | ring].
Qed.

Lemma fround_nonpos (x : Q) : x <= 0 -> fround x <= 0.
Proof.
  intros Hx; unfold fround.
  apply Qle_trans with (round_at (exponent x) 0); [apply round_at_le, Hx |].
  rewrite (round_at_exact _ 0); [lra | ring].
Qed.

Lemma exponent_pos (x : Q) :
  0 < x -> exponent x = Z.max (-126) (ilog2 x).
Proof.
  intros Hx; unfold exponent; destruct x as [n d].
  unfold Qlt in Hx; simpl in Hx.
  unfold Qabs; rewrite Z.abs_eq by lia; reflexivity.
Qed.

Lemma fround_le_pos (x y : Q) : 0 < x -> x <= y -> fround x <= fround y.
Proof.
  intros Hx Hxy; assert (Hy : 0 < y) by lra.
  unfold fround; rewrite (exponent_pos x Hx), (exponent_pos y Hy).
  destruct (ilog2_spec x Hx) as [Xa Xb], (ilog2_spec y Hy) as [Ya Yb].
  set (a := ilog2 x) in *; set (b := ilog2 y) in *.
  assert (Hab : (a <= b)%Z).
  { assert (H : pow2 a < pow2 (b + 1)) by lra.
    apply pow2_lt_inv in H; lia. }
  destruct (Z.eq_dec (Z.max (-126) a) (Z.max (-126) b)) as [E | NE].
  - rewrite E; apply round_at_le, Hxy.
  - set (ex := Z.max (-126) a) in *; set (ey := Z.max (-126) b) in *.
    assert (Hey : ey = b) by lia.
    assert (Hex : (a <= ex /\ ex + 1 <= ey)%Z) by lia.
    apply Qle_trans with (pow2 (ex + 1)).
    + rewrite <- (round_at_pow2 ex (ex + 1)) by lia.
      apply round_at_le.
      apply Qle_trans with (pow2 (a + 1)); [lra | apply pow2_le; lia].
    + apply Qle_trans with (pow2 ey); [apply pow2_le; lia |].
      rewrite <- (round_at_pow2 ey ey) at 1 by lia.
      apply round_at_le; rewrite Hey; exact Ya.
Qed.

Lemma exponent_neg (x : Q) :
  x < 0 -> exponent x = Z.max (-126) (ilog2 (- x)).
Proof.
  intros Hx; unfold exponent; destruct x as [n d].
  unfold Qlt in Hx; simpl in Hx.
  unfold Qabs, Qopp; cbn [Qnum Qden]; rewrite Z.abs_neq by lia; reflexivity.
Qed.

Lemma fround_le_neg (x y : Q) : y < 0 -> x <= y -> fround x <= fround y.
Proof.
  intros Hy Hxy; assert (Hx : x < 0) by lra.
  unfold fround; rewrite (exponent_neg x Hx), (exponent_neg y Hy).
  assert (Hx' : 0 < - x) by lra; assert (Hy' : 0 < - y) by lra.
  destruct (ilog2_spec (- x) Hx') as [Xa Xb],
           (ilog2_spec (- y) Hy') as [Ya Yb].
  set (a := ilog2 (- x)) in *; set (b := ilog2 (- y)) in *.
  assert (Hab : (b <= a)%Z).
  { assert (H : pow2 b < pow2 (a + 1)) by lra.
    apply pow2_lt_inv in H; lia. }
  destruct (Z.eq_dec (Z.max (-126) a) (Z.max (-126) b)) as [E | NE].
  - rewrite E; apply round_at_le, Hxy.
  - set (ex := Z.max (-126) a) in *; set (ey := Z.max (-126) b) in *.
    assert (Hex : ex = a) by lia.
    assert (Hey : (b <= ey /\ ey + 1 <= ex)%Z) by lia.
    apply Qle_trans with (- pow2 ex).
    + rewrite <- (round_at_opp_pow2 ex ex) by lia.
      apply round_at_le; rewrite Hex; lra.
    + apply Qle_trans with (- pow2 (ey + 1)).
      * apply Qopp_le_compat, pow2_le; lia.
      * rewrite <- (round_at_opp_pow2 ey (ey + 1)) by lia.
        apply round_at_le.
        assert (pow2 (b + 1) <= pow2 (ey + 1)) by (apply pow2_le; lia).
        lra.
Qed.

Lemma fround_le (x y : Q) : x <= y -> fround x <= fround y.
Proof.
  intros Hxy.
  destruct (Qlt_le_dec 0 x) as [Hx | Hx].
  - apply fround_le_pos; assumption.
  - destruct (Qlt_le_dec y 0) as [Hy | Hy].
    + apply fround_le_neg; assumption.
    + apply Qle_trans with 0; [apply fround_nonpos | apply fround_nonneg];
        assumption.
Qed.

End Binary32Facts.

(** The three numbers the generator's bounds rest on are binary32
    numbers. *)
Lemma fround_cube_bounds :
  Binary32.fround 0 == 0 /\ Binary32.fround 7.5 == 7.5 /\
  Binary32.fround (-7.5) == -7.5.
Proof. repeat split; vm_compute; reflexivity. Qed.

Example fround_1_2 : Binary32.fround 1.2 == 5033165 # 4194304.
Proof. vm_compute; reflexivity. Qed.

(** ** Typed-array stores *)

Section StoreFacts.

Import Portfolio.

Lemma store_length (a : Float32Array) (i : nat) (v : Q) :
  List.length (store a i v) = List.length a.
Proof.
  revert i; induction a as [|x a IH]; intros [|i]; simpl; auto.
Qed.

Lemma load_store_same (a : Float32Array) (i : nat) (v : Q) :
  (i < List.length a)%nat -> load (store a i v) i = Binary32.fround v.
Proof.
  unfold load; revert i; induction a as [|x a IH]; intros [|i] Hi;
    simpl in *; try lia; auto.
  apply IH; lia.
Qed.

Lemma load_store_other (a : Float32Array) (i j : nat) (v : Q) :
  i <> j -> load (store a i v) j = load a j.
Proof.
  unfold load; revert i j; induction a as [|x a IH]; intros [|i] [|j] Hij;
    simpl; auto; try congruence.
Qed.

Lemma Forall_store (P : Q -> Prop) (a : Float32Array) (i : nat) (v : Q) :
  P (Binary32.fround v) -> Forall P a -> Forall P (store a i v).
Proof.
  intros Hv Ha; revert i; induction Ha as [|x a Hx Ha IH]; intros [|i];
    simpl; constructor; auto.
Qed.

Lemma Forall_load (P : Q -> Prop) (a : Float32Array) (j : nat) :
  Forall P a -> (j < List.length a)%nat -> P (load a j).
Proof.
  intros Ha Hj; unfold load.
  rewrite Forall_forall in Ha; apply Ha, nth_In, Hj.
Qed.

End StoreFacts.

(** ** The particle generator *)

Section GeneratorFacts.

Import Portfolio.

Variable colorObj : Color.
Variable random : nat -> Q.
Hypothesis random_range : forall k, 0 <= random k /\ random k < 1.

Lemma position_in_cube (k : nat) :
  in_cube (Binary32.fround ((random k - 0.5) * 15)).
Proof.
  destruct (random_range k) as [H0 H1].
  destruct fround_cube_bounds as (_ & Hhi & Hlo).
  unfold in_cube; split.
  - rewrite <- Hlo; apply fround_le; lra.
  - rewrite <- Hhi; apply fround_le; lra.
Qed.

Lemma jitter_in_range (base width : Q) (k : nat) :
  0 <= width ->
  Binary32.fround base <= Binary32.fround (base + random k * width) /\
  Binary32.fround (base + random k * width) <= Binary32.fround (base + width).
Proof.
  intros Hw; destruct (random_range k) as [H0 H1].
  split; apply fround_le; nra.
Qed.

Lemma body_preserves (n m : nat) (st : GenState) :
  (m * 3 + 2 < n)%nat ->
  loop_inv colorObj n m st ->
  loop_inv colorObj n (S m) (generateParticles_body colorObj random st m).
Proof.
  intros Hm [Hp Hc Hd Hcube Hcol].
  constructor; unfold generateParticles_body;
    cbn [gen_positions gen_colors gen_draws].
  - rewrite !store_length; exact Hp.
  - rewrite !store_length; exact Hc.
  - lia.
  - repeat apply Forall_store; auto using position_in_cube.
  - intros i Hi.
    assert (Hcases : (i < m)%nat \/ i = m) by lia.
    destruct Hcases as [Hlt | ->].
    + destruct (Hcol i Hlt) as (H0 & H1 & H2).
      unfold particle_color_rounded.
      rewrite !load_store_other by lia.
      auto.
    + unfold particle_color_rounded.
      rewrite (load_store_other _ (m * 3 + 2) (m * 3)) by lia.
      rewrite (load_store_other _ (m * 3 + 1) (m * 3)) by lia.
      rewrite (load_store_other _ (m * 3 + 2) (m * 3 + 1)) by lia.
      rewrite !load_store_same by (rewrite ?store_length; lia).
      split; [reflexivity | split; apply jitter_in_range; lra].
Qed.

Lemma loop_establishes (n m : nat) (st : GenState) :
  (m * 3 <= n)%nat ->
  loop_inv colorObj n 0 st ->
  loop_inv colorObj n m (generateParticles_loop colorObj random m st).
Proof.
  unfold generateParticles_loop.
  induction m as [|m IH]; intros Hm Hst.
  - exact Hst.
  - rewrite seq_S, fold_left_app; cbn [fold_left].
    change (0 + m)%nat with m.
    apply body_preserves; [lia | apply IH; [lia | exact Hst]].
Qed.

Lemma fresh_arrays_inv (n : nat) :
  loop_inv colorObj n 0 (mkGen (new_Float32Array n) (new_Float32Array n) 0).
Proof.
  constructor; simpl; unfold new_Float32Array.
  - apply repeat_length.
  - apply repeat_length.
  - reflexivity.
  - apply Forall_forall; intros v Hv.
    apply repeat_spec in Hv; subst v.
    unfold in_cube; split; lra.
  - intros i Hi; lia.
Qed.

(** C4 (amended).  For every count [N], given draws of [Math.random()]
    in [[0, 1)], the generator returns a position array and a colour array
    of exactly [N] particles each ([3 * N] entries, attribute count [N]);
    every position component lies in [[-7.5, 7.5]]; and for every particle
    the entries are within the bounds as the array holds them, converted
    to binary32: the red entry is the converted base value, the green entry
    lies between the converted base and the converted base plus [0.2], the
    blue entry between the converted base and the converted base plus
    [0.5]. *)
Theorem generateParticles_shape_and_bounds (count : nat) :
  let ps := generateParticles colorObj random count in
  List.length (positions ps) = (count * 3)%nat /\
  List.length (colors ps) = (count * 3)%nat /\
  attribute_count (positions ps) = count /\
  attribute_count (colors ps) = count /\
  (forall j, (j < count * 3)%nat -> in_cube (load (positions ps) j)) /\
  (forall i, (i < count)%nat ->
     particle_color_rounded colorObj (colors ps) i).
Proof.
  destruct (loop_establishes (count * 3) count _ (Nat.le_refl _)
              (fresh_arrays_inv (count * 3)))
    as [Hp Hc _ Hcube Hcol].
  unfold generateParticles, attribute_count; cbn [positions colors].
  rewrite Hp, Hc, Nat.div_mul by lia.
  repeat apply conj; auto.
  intros j Hj; apply Forall_load; [exact Hcube | lia].
Qed.

End GeneratorFacts.

(** A run with two particles: green base colour, draws alternating between
    [0.25] and [0.75]. *)
Lemma generateParticles_shape_and_bounds_witness :
  let colorObj := Portfolio.mkColor 0 1 (13 # 51) in
  let random := fun k : nat => if Nat.even k then 0.25 else 0.75 in
  let ps := Portfolio.generateParticles colorObj random 2 in
  List.length (Portfolio.positions ps) = 6%nat /\
  List.length (Portfolio.colors ps) = 6%nat /\
  Portfolio.attribute_count (Portfolio.positions ps) = 2%nat /\
  Portfolio.attribute_count (Portfolio.colors ps) = 2%nat /\
  (forall j, (j < 6)%nat ->
     Portfolio.in_cube (Portfolio.load (Portfolio.positions ps) j)) /\
  (forall i, (i < 2)%nat ->
     Portfolio.particle_color_rounded colorObj (Portfolio.colors ps) i).
Proof.
  cbv zeta.
  apply (generateParticles_shape_and_bounds
           (Portfolio.mkColor 0 1 (13 # 51))
           (fun k : nat => if Nat.even k then 0.25 else 0.75)).
  intros k; destruct (Nat.even k); split; lra.
Defined.

(** C4 (as stated, refuted).  One particle, green base [1], a draw of
    [1 - 2^-30] for the green jitter: the sum [1.2 - 0.2 * 2^-30] is stored
    as the binary32 number next above [1.2], [5033165 / 4194304], which
    exceeds the base plus [0.2]. *)
Lemma generateParticles_green_exceeds_bound :
  let colorObj := Portfolio.mkColor 0 1 (13 # 51) in
  let random := fun k : nat => 1 - (1 # 1073741824) in
  let ps := Portfolio.generateParticles colorObj random 1 in
  (forall k, 0 <= random k /\ random k < 1) /\
  Portfolio.load (Portfolio.colors ps) (0 * 3 + 1) == 5033165 # 4194304 /\
  ~ Portfolio.load (Portfolio.colors ps) (0 * 3 + 1)
      <= Portfolio.g colorObj + 0.2 /\
  ~ Portfolio.particle_color_ok colorObj (Portfolio.colors ps) 0.
Proof.
  cbv zeta.
  assert (Hv : Portfolio.load
                 (Portfolio.colors
                    (Portfolio.generateParticles
                       (Portfolio.mkColor 0 1 (13 # 51))
                       (fun _ : nat => 1 - (1 # 1073741824)) 1)) (0 * 3 + 1)
               == 5033165 # 4194304)
    by (vm_compute; reflexivity).
  assert (Hgt : ~ (5033165 # 4194304) <= 1 + 0.2)
    by (intros H; vm_compute in H; apply H; reflexivity).
  repeat apply conj.
  - intros k; split; [vm_compute; discriminate | reflexivity].
  - exact Hv.
  - rewrite Hv; exact Hgt.
  - intros (_ & (_ & Hle) & _); rewrite Hv in Hle; exact (Hgt Hle).
Qed.

Example generateParticles_two_particles :
  let colorObj := Portfolio.mkColor 0 1 (13 # 51) in
  let random := fun k : nat => if Nat.even k then 0.25 else 0.75 in
  let ps := Portfolio.generateParticles colorObj random 2 in
  Forall2 Qeq (Portfolio.positions ps)
    [-3.75; 3.75; -3.75; 3.75; -3.75; 3.75] /\
  Forall2 Qeq (Portfolio.colors ps)
    [0; 9646899 # 8388608; 12747395 # 33554432;
     0; 4404019 # 4194304; 10568001 # 16777216].
Proof.
  cbv zeta; split; vm_compute; repeat constructor.
Qed.

(** ** The frame callback of the particle field *)

Section FrameFacts.

Import Portfolio.

Lemma smooth_rotation_present (a : axis) (target : Q) (p : Points)
    (m : Q * Q) (l : list access) :
  smooth_rotation a target (mkScene (Some p) m l) =
  (Js.Normal tt,
   mkScene
     (Some (set_rotation a
              (get_rotation a p + (target - get_rotation a p) * 0.05) p))
     m (l ++ smooth_accesses a)).
Proof.
  unfold smooth_rotation, Js.bind, read_rotation, write_rotation; simpl.
  rewrite <- !app_assoc; reflexivity.
Qed.

(** The scene a frame leaves when the handle is set. *)
Lemma useFrame_callback_present (time : Q) (p : Points) (m : Q * Q)
    (l : list access) :
  useFrame_callback time (mkScene (Some p) m l) =
  (Js.Normal tt,
   mkScene
     (Some (mkPoints
              (time * 0.05 + (snd m * 0.5 - time * 0.05) * 0.05)
              (time * 0.03 + (fst m * 0.5 - time * 0.03) * 0.05)))
     m
     (l ++ [WriteRotation AxisX; WriteRotation AxisY]
        ++ smooth_accesses AxisX ++ smooth_accesses AxisY)).
Proof.
  unfold useFrame_callback, Js.bind, read_points_current, read_mouse_0,
    read_mouse_1, write_rotation; simpl.
  rewrite !smooth_rotation_present; simpl.
  rewrite <- !app_assoc; reflexivity.
Qed.

Lemma useFrame_callback_unset (time : Q) (m : Q * Q) (l : list access) :
  useFrame_callback time (mkScene None m l) =
  (Js.Normal tt, mkScene None m l).
Proof. reflexivity. Qed.

(** Without the guard the first assignment would throw. *)
Lemma write_rotation_unset (a : axis) (v : Q) (m : Q * Q)
    (l : list access) :
  Js.completes (write_rotation a v) (mkScene None m l) = false.
Proof. reflexivity. Qed.

(** The callback completes normally on every scene. *)
Lemma useFrame_never_throws_total (time : Q) (s : Scene) :
  Js.completes (useFrame_callback time) s = true.
Proof.
  destruct s as [[p|] m l]; unfold Js.completes.
  - rewrite useFrame_callback_present; reflexivity.
  - reflexivity.
Qed.

(** C1 (as stated, refuted).  A frame at elapsed time [0] with the pointer
    at the centre, entered with rotation [1] left by the previous frame:
    the claimed value is [1 + 0.05 * ((0 + 0) - 1) = 0.95], the callback
    leaves [0]. *)
Lemma useFrame_ignores_previous_rotation :
  let time := 0 in
  let previous := 1 in
  let s := mkScene (Some (mkPoints previous previous)) (0, 0) [] in
  let autonomous := time * 0.05 in
  let offset := snd (mouse_current s) * 0.5 in
  exists v,
    rotation AxisX (Js.exec (useFrame_callback time) s) = Some v /\
    v == 0 /\
    ~ v == previous + 0.05 * ((autonomous + offset) - previous).
Proof.
  cbv zeta; unfold Js.exec; rewrite useFrame_callback_present; cbn.
  eexists; split; [reflexivity | split].
  - reflexivity.
  - intros H; vm_compute in H; discriminate H.
Qed.

(** C1 (amended).  On every frame with the handle set, whatever rotation
    the previous frame left, the callback first overwrites the rotation with
    the autonomous rotation ([time * 0.05] on x, [time * 0.03] on y) and then
    moves it by [0.05] of its distance to the pointer offset ([0.5] times the
    pointer's y for the x axis, [0.5] times the pointer's x for the y
    axis). *)
Theorem useFrame_rotation (time : Q) (p : Points) (m : Q * Q)
    (l : list access) :
  let s' := Js.exec (useFrame_callback time) (mkScene (Some p) m l) in
  let autonomous_x := time * 0.05 in
  let autonomous_y := time * 0.03 in
  let targetX := fst m * 0.5 in
  let targetY := snd m * 0.5 in
  rotation AxisX s' = Some (autonomous_x + (targetY - autonomous_x) * 0.05) /\
  rotation AxisY s' = Some (autonomous_y + (targetX - autonomous_y) * 0.05).
Proof.
  cbv zeta; unfold Js.exec; rewrite useFrame_callback_present.
  split; reflexivity.
Qed.

(** C2.  The smoothing statement, run on any rotation value and any
    target, leaves [rotation + (target - rotation) * 0.05] and completes
    normally; from rotation [0] with target [1], one run leaves [0.05] and a
    second run [0.0975]. *)
Theorem smooth_rotation_recurrence (a : axis) :
  (forall (target : Q) (p : Points) (m : Q * Q) (l : list access),
     let s := mkScene (Some p) m l in
     Js.completes (smooth_rotation a target) s = true /\
     rotation a (Js.exec (smooth_rotation a target) s) =
       Some (get_rotation a p + (target - get_rotation a p) * 0.05)) /\
  (forall (m : Q * Q) (l : list access),
     let s0 := mkScene (Some (set_rotation a 0 (mkPoints 0 0))) m l in
     let s1 := Js.exec (smooth_rotation a 1) s0 in
     let s2 := Js.exec (smooth_rotation a 1) s1 in
     exists v1 v2,
       rotation a s1 = Some v1 /\ v1 == 0.05 /\
       rotation a s2 = Some v2 /\ v2 == 0.0975).
Proof.
  split.
  - intros target p m l; cbv zeta; unfold Js.exec, Js.completes.
    rewrite smooth_rotation_present; simpl.
    split; [reflexivity | destruct a; reflexivity].
  - intros m l; cbv zeta; unfold Js.exec.
    rewrite smooth_rotation_present; cbn [snd].
    rewrite smooth_rotation_present; cbn [snd].
    destruct a; simpl; do 2 eexists;
      (split; [reflexivity | split; [reflexivity | split; reflexivity]]).
Qed.

(** C7.  The frame callback always completes normally; when the handle
    is unset it returns at once, leaving the scene as it was and having
    neither read nor written a rotation component. *)
Theorem useFrame_never_throws (time : Q) (s : Scene) :
  Js.completes (useFrame_callback time) s = true /\
  (points_current s = None ->
   useFrame_callback time s = (Js.Normal tt, s) /\
   log (Js.exec (useFrame_callback time) s) = log s).
Proof.
  split; [apply useFrame_never_throws_total |].
  destruct s as [p m l]; simpl; intros ->.
  unfold Js.exec; rewrite useFrame_callback_unset; auto.
Qed.

Lemma useFrame_never_throws_witness :
  useFrame_callback 3 initial_scene = (Js.Normal tt, initial_scene) /\
  log (Js.exec (useFrame_callback 3) initial_scene) = log initial_scene.
Proof.
  apply (useFrame_never_throws 3 initial_scene); reflexivity.
Defined.

(** C9.  Two runs of one frame with the same elapsed time and the same
    pointer state, started from any two rotations, leave the same rotation:
    on each axis [0.95] times the autonomous rotation plus [0.05] times the
    pointer offset. *)
Theorem useFrame_rotation_independent_of_previous (time : Q)
    (p1 p2 : Points) (m : Q * Q) (l1 l2 : list access) :
  let s1 := Js.exec (useFrame_callback time) (mkScene (Some p1) m l1) in
  let s2 := Js.exec (useFrame_callback time) (mkScene (Some p2) m l2) in
  points_current s1 = points_current s2 /\
  exists vx vy,
    rotation AxisX s1 = Some vx /\
    rotation AxisY s1 = Some vy /\
    vx == 0.95 * (time * 0.05) + 0.05 * (snd m * 0.5) /\
    vy == 0.95 * (time * 0.03) + 0.05 * (fst m * 0.5).
Proof.
  cbv zeta; unfold Js.exec; rewrite !useFrame_callback_present; simpl.
  split; [reflexivity |].
  do 2 eexists; repeat apply conj; try reflexivity; unfold rotation; simpl;
    ring.
Qed.

End FrameFacts.

(** ** The pointer state *)

Section PointerFacts.

Import Portfolio.

Lemma handleMouseMove_exec (cx cy w h : Q) (s : Scene) :
  Js.exec (handleMouseMove cx cy w h) s =
  mkScene (points_current s)
          ((cx / w) * 2 - 1, (- (cy / h)) * 2 + 1)
          (log s).
Proof. reflexivity. Qed.

Lemma ratio_range (x w : Q) :
  0 < w -> 0 <= x <= w -> 0 <= x / w /\ x / w <= 1.
Proof.
  intros Hw [H0 H1]; split.
  - apply Qle_shift_div_l; [exact Hw | lra].
  - apply Qle_shift_div_r; [exact Hw | lra].
Qed.

Lemma handleMouseMove_normalized (cx cy w h : Q) (s : Scene) :
  in_viewport (MouseMove cx cy w h) ->
  normalized (mouse_current (Js.exec (handleMouseMove cx cy w h) s)).
Proof.
  intros (Hw & Hh & Hx & Hy).
  rewrite handleMouseMove_exec; unfold normalized; simpl.
  destruct (ratio_range cx w Hw Hx), (ratio_range cy h Hh Hy).
  repeat split; lra.
Qed.

(** The frame callback reads the pointer state and never writes it. *)
Lemma useFrame_keeps_mouse (time : Q) (s : Scene) :
  mouse_current (Js.exec (useFrame_callback time) s) = mouse_current s.
Proof.
  destruct s as [[p|] m l]; unfold Js.exec.
  - rewrite useFrame_callback_present; reflexivity.
  - reflexivity.
Qed.

Lemma dispatch_normalized (s : Scene) (ev : event) :
  in_viewport ev ->
  normalized (mouse_current s) ->
  normalized (mouse_current (dispatch s ev)).
Proof.
  destruct ev as [p | cx cy w h | time]; intros Hev Hs.
  - exact Hs.
  - apply handleMouseMove_normalized; exact Hev.
  - simpl; rewrite useFrame_keeps_mouse; exact Hs.
Qed.

Lemma run_normalized (evs : list event) :
  Forall in_viewport evs ->
  forall s, normalized (mouse_current s) ->
            normalized (mouse_current (run evs s)).
Proof.
  induction 1 as [|ev evs Hev _ IH]; intros s Hs.
  - exact Hs.
  - apply IH, dispatch_normalized; assumption.
Qed.

(** C5.  The pointer state is a pair of numbers that starts as [(0, 0)];
    after any sequence of ref attachments, frames and pointer moves whose
    coordinates lie in a viewport of positive size, both components are in
    [[-1, 1]], and a frame leaves the pair it reads as it was. *)
Theorem mouse_always_normalized (evs : list event) :
  Forall in_viewport evs ->
  mouse_current initial_scene = (0, 0) /\
  normalized (mouse_current (run evs initial_scene)) /\
  (forall time,
     let s := run evs initial_scene in
     Js.completes (useFrame_callback time) s = true /\
     mouse_current (Js.exec (useFrame_callback time) s) = mouse_current s).
Proof.
  intros Hevs; split; [reflexivity | split].
  - apply run_normalized; [exact Hevs |].
    unfold normalized; simpl; repeat split; lra.
  - intros time s; split.
    + apply useFrame_never_throws_total.
    + apply useFrame_keeps_mouse.
Qed.

Lemma mouse_always_normalized_witness :
  normalized
    (mouse_current
       (run [MouseMove 10 20 100 50; Frame 1;
             AttachRef (Some (mkPoints 0 0)); MouseMove 100 0 100 50;
             Frame 2]
            initial_scene)).
Proof.
  apply mouse_always_normalized.
  repeat constructor; simpl; lra.
Defined.

(** C10.  In a viewport of positive size the handler maps the top edge
    ([clientY = 0]) to [y = 1], the bottom edge ([clientY = innerHeight]) to
    [y = -1], and the left edge ([clientX = 0]) to [x = -1]: the vertical
    axis is negated, the horizontal one is not. *)
Theorem handleMouseMove_edges (w h : Q) (s : Scene) :
  0 < w -> 0 < h ->
  (forall cx,
     snd (mouse_current (Js.exec (handleMouseMove cx 0 w h) s)) == 1) /\
  (forall cx,
     snd (mouse_current (Js.exec (handleMouseMove cx h w h) s)) == -1) /\
  (forall cy,
     fst (mouse_current (Js.exec (handleMouseMove 0 cy w h) s)) == -1) /\
  (forall cy,
     fst (mouse_current (Js.exec (handleMouseMove w cy w h) s)) == 1).
Proof.
  intros Hw Hh; repeat apply conj; intros c;
    rewrite handleMouseMove_exec; simpl; field; lra.
Qed.

Lemma handleMouseMove_edges_witness :
  snd (mouse_current
         (Js.exec (handleMouseMove 300 600 800 600) initial_scene)) == -1.
Proof.
  apply (handleMouseMove_edges 800 600 initial_scene); reflexivity.
Defined.

End PointerFacts.

(** ** The cursor follower *)

Section CursorFacts.

Import Cursor.

(** Case analysis on a world down to its two elements. *)
Ltac world_cases w :=
  destruct w as [mx my ox oy [[dl dt dtr dbg]|] [[ol ot otr obg]|] rq ml hl].

Lemma animateCursor_with_outline (w : World) (o : Style) :
  cursorOutline w = Some o ->
  animateCursor w =
  (Js.Normal tt,
   let x := outlineX w + (mouseX w - outlineX w) * 0.5 in
   let y := outlineY w + (mouseY w - outlineY w) * 0.5 in
   mkWorld (mouseX w) (mouseY w) x y (cursorDot w)
           (Some (with_top y (with_left x o)))
           (frame_requests w ++ [AnimateCursor])
           (mousemove_listener w) (hover_listeners w)).
Proof.
  destruct w as [mx my ox oy d ol rq ml hl]; simpl; intros ->; reflexivity.
Qed.

(** With no outline element the callback throws before it reaches
    [requestAnimationFrame]; the two eased coordinates are already
    updated. *)
Lemma animateCursor_without_outline (w : World) :
  cursorOutline w = None ->
  animateCursor w =
  (Js.Throw Js.TypeError,
   set_outlineY (outlineY w + (mouseY w - outlineY w) * 0.5)
     (set_outlineX (outlineX w + (mouseX w - outlineX w) * 0.5) w)).
Proof.
  destruct w as [mx my ox oy d ol rq ml hl]; simpl; intros ->; reflexivity.
Qed.

Lemma animateCursor_eases (w : World) :
  let w' := Js.exec animateCursor w in
  outlineX w' = outlineX w + (mouseX w - outlineX w) * 0.5 /\
  outlineY w' = outlineY w + (mouseY w - outlineY w) * 0.5 /\
  mouseX w' = mouseX w /\
  mouseY w' = mouseY w.
Proof.
  world_cases w; repeat split; reflexivity.
Qed.

(** C3.  One execution of [animateCursor] replaces each eased coordinate
    by [eased + (raw - eased) * 0.5] and leaves the raw coordinates alone;
    with the raw position held at [(100, 100)] and the eased position at
    [(0, 0)], the eased position is [(50, 50)] after one tick and [(75, 75)]
    after two. *)
Theorem animateCursor_recurrence (w : World) :
  (let w' := Js.exec animateCursor w in
   outlineX w' = outlineX w + (mouseX w - outlineX w) * 0.5 /\
   outlineY w' = outlineY w + (mouseY w - outlineY w) * 0.5 /\
   mouseX w' = mouseX w /\
   mouseY w' = mouseY w) /\
  (mouseX w == 100 -> mouseY w == 100 ->
   outlineX w == 0 -> outlineY w == 0 ->
   let w1 := Js.exec animateCursor w in
   let w2 := Js.exec animateCursor w1 in
   (outlineX w1 == 50 /\ outlineY w1 == 50) /\
   (outlineX w2 == 75 /\ outlineY w2 == 75)).
Proof.
  split; [apply animateCursor_eases |].
  intros Hmx Hmy Hox Hoy; cbv zeta.
  destruct (animateCursor_eases (Js.exec animateCursor w))
    as (X2 & Y2 & MX2 & MY2).
  destruct (animateCursor_eases w) as (X1 & Y1 & MX1 & MY1).
  clear MX2 MY2.
  rewrite X2, Y2, MX1, MY1, X1, Y1, Hmx, Hmy, Hox, Hoy.
  repeat split; reflexivity.
Qed.

Lemma animateCursor_recurrence_witness :
  let w := set_mouseY 100 (set_mouseX 100
             (loaded (Some (mkStyle None None EmptyString EmptyString))
                     (Some (mkStyle None None EmptyString EmptyString)))) in
  let w1 := Js.exec animateCursor w in
  let w2 := Js.exec animateCursor w1 in
  (outlineX w1 == 50 /\ outlineY w1 == 50) /\
  (outlineX w2 == 75 /\ outlineY w2 == 75).
Proof.
  cbv zeta; apply animateCursor_recurrence; reflexivity.
Defined.

Lemma onMouseEnter_idempotent (w : World) :
  Js.exec onMouseEnter (Js.exec onMouseEnter w) = Js.exec onMouseEnter w.
Proof. world_cases w; reflexivity. Qed.

Lemma onMouseEnter_keeps_listeners (w : World) :
  hover_listeners (Js.exec onMouseEnter w) = hover_listeners w.
Proof. world_cases w; reflexivity. Qed.

Lemma dispatch_enter_idempotent (w : World) :
  dispatch (dispatch w MouseEnter) MouseEnter = dispatch w MouseEnter.
Proof.
  simpl; destruct (hover_listeners w) eqn:Hl.
  - rewrite onMouseEnter_keeps_listeners, Hl.
    apply onMouseEnter_idempotent.
  - rewrite Hl; reflexivity.
Qed.

Lemma run_enters (n : nat) (w : World) :
  run (repeat MouseEnter (S n)) w = dispatch w MouseEnter.
Proof.
  revert w; induction n as [|n IH]; intros w; [reflexivity |].
  change (run (repeat MouseEnter (S (S n))) w)
    with (run (repeat MouseEnter (S n)) (dispatch w MouseEnter)).
  rewrite IH; apply dispatch_enter_idempotent.
Qed.

(** Events other than pointer-enter and pointer-leave neither change the
    scale and fill state nor what a later pointer-enter makes of it. *)
Lemma onMouseMove_hover (cx cy : Q) (w : World) :
  mousemove_listener w = true ->
  hover_state (dispatch w (MouseMove cx cy)) = hover_state w /\
  hover_state (dispatch (dispatch w (MouseMove cx cy)) MouseEnter) =
  hover_state (dispatch w MouseEnter).
Proof.
  world_cases w; destruct hl; simpl; intros ->; split; reflexivity.
Qed.

Lemma animateCursor_hover (w : World) :
  hover_state (Js.exec animateCursor w) = hover_state w /\
  hover_state (dispatch (Js.exec animateCursor w) MouseEnter) =
  hover_state (dispatch w MouseEnter).
Proof.
  world_cases w; destruct hl; split; reflexivity.
Qed.

Lemma run_callbacks_hover (cbs : list callback) (w : World) :
  let w' := fold_left (fun w' cb => Js.exec (run_callback cb) w') cbs w in
  hover_state w' = hover_state w /\
  hover_state (dispatch w' MouseEnter) = hover_state (dispatch w MouseEnter).
Proof.
  revert w; induction cbs as [|[] cbs IH]; intros w; cbv zeta.
  - split; reflexivity.
  - cbn [fold_left run_callback].
    destruct (IH (Js.exec animateCursor w)) as [H1 H2].
    destruct (animateCursor_hover w) as [H3 H4].
    split; congruence.
Qed.

Lemma dispatch_hover (ev : event) (w : World) :
  ev <> MouseLeave ->
  hover_state (dispatch w MouseEnter) = hover_state w ->
  hover_state (dispatch w ev) = hover_state w /\
  hover_state (dispatch (dispatch w ev) MouseEnter) = hover_state w.
Proof.
  intros Hev Hw; destruct ev as [cx cy | | |]; try congruence.
  - destruct (mousemove_listener w) eqn:Hm.
    + destruct (onMouseMove_hover cx cy w Hm); split; congruence.
    + simpl; rewrite Hm; simpl in Hw; auto.
  - rewrite dispatch_enter_idempotent; auto.
  - destruct (run_callbacks_hover (frame_requests w)
                (set_frame_requests [] w)) as [H1 H2].
    cbv zeta in H1, H2.
    change (fold_left _ (frame_requests w) (set_frame_requests [] w))
      with (dispatch w AnimationFrame) in H1, H2.
    assert (H3 : hover_state (set_frame_requests [] w) = hover_state w)
      by reflexivity.
    assert (H4 : hover_state (dispatch (set_frame_requests [] w) MouseEnter)
                 = hover_state (dispatch w MouseEnter))
      by (world_cases w; destruct hl; reflexivity).
    split; congruence.
Qed.

Lemma run_hover (evs : list event) (w : World) :
  (forall ev, In ev evs -> ev <> MouseLeave) ->
  hover_state (dispatch w MouseEnter) = hover_state w ->
  hover_state (run evs w) = hover_state w.
Proof.
  revert w; induction evs as [|ev evs IH]; intros w Hevs Hw;
    [reflexivity |].
  destruct (dispatch_hover ev w) as [H1 H2]; auto using in_eq.
  change (run (ev :: evs) w) with (run evs (dispatch w ev)).
  rewrite IH; auto using in_cons; congruence.
Qed.

(** C6.  Any number of pointer-enter events in a row leaves the world a
    single pointer-enter leaves; after a pointer-enter, any events without a
    pointer-leave (further pointer-enters, moves, frames) leave the scale
    and fill state of that single pointer-enter; with both elements present
    and the hover listeners registered that state is the fixed one: outline
    [scale(1.5)] with the translucent fill, dot [scale(0.5)]. *)
Theorem mouseenter_idempotent (n : nat) (w : World) :
  run (repeat MouseEnter (S n)) w = run [MouseEnter] w /\
  Nat.iter (S n) (Js.exec onMouseEnter) w = Js.exec onMouseEnter w /\
  (forall evs,
     (forall ev, In ev evs -> ev <> MouseLeave) ->
     hover_state (run (MouseEnter :: evs) w) =
     hover_state (run [MouseEnter] w)) /\
  (hover_listeners w = true ->
   cursorOutline w <> None -> cursorDot w <> None ->
   hover_state (run (repeat MouseEnter (S n)) w) =
   (Some ("translate(-50%, -50%) scale(1.5)"%string,
          "rgba(255, 255, 255, 0.1)"%string),
    Some "translate(-50%, -50%) scale(0.5)"%string)).
Proof.
  split; [apply run_enters | split; [| split]].
  - induction n as [|n IH]; [reflexivity |].
    change (Nat.iter (S (S n)) (Js.exec onMouseEnter) w)
      with (Js.exec onMouseEnter (Nat.iter (S n) (Js.exec onMouseEnter) w)).
    rewrite IH; apply onMouseEnter_idempotent.
  - intros evs Hevs.
    change (run (MouseEnter :: evs) w)
      with (run evs (dispatch w MouseEnter)).
    change (run [MouseEnter] w) with (dispatch w MouseEnter).
    apply run_hover; [exact Hevs |].
    rewrite dispatch_enter_idempotent; reflexivity.
  - intros Hl Ho Hd; rewrite run_enters.
    world_cases w; simpl in *; subst; try congruence; reflexivity.
Qed.

Lemma mouseenter_idempotent_witness :
  let st := mkStyle None None "translate(-50%, -50%) scale(1)" "transparent" in
  let w := Js.exec domContentLoaded (loaded (Some st) (Some st)) in
  hover_state (run (repeat MouseEnter 3) w) =
    (Some ("translate(-50%, -50%) scale(1.5)"%string,
           "rgba(255, 255, 255, 0.1)"%string),
     Some "translate(-50%, -50%) scale(0.5)"%string) /\
  hover_state (run [MouseEnter; MouseMove 3 4; AnimationFrame; MouseEnter] w)
    = hover_state (run [MouseEnter] w).
Proof.
  cbv zeta; split.
  - apply (mouseenter_idempotent 2); simpl; congruence.
  - apply (proj1 (proj2 (proj2 (mouseenter_idempotent 0 _)))).
    intros ev [<- | [<- | [<- | []]]]; discriminate.
Defined.

(** *** The animation loop *)

Lemma dispatch_keeps_loop (w : World) (ev : event) :
  cursorOutline w <> None ->
  frame_requests w = [AnimateCursor] ->
  cursorOutline (dispatch w ev) <> None /\
  frame_requests (dispatch w ev) = [AnimateCursor].
Proof.
  world_cases w; simpl; intros Ho ->; try congruence;
    destruct ev; simpl; destruct ml, hl; simpl; split; congruence.
Qed.

Lemma run_keeps_loop (evs : list event) (w : World) :
  cursorOutline w <> None ->
  frame_requests w = [AnimateCursor] ->
  cursorOutline (run evs w) <> None /\
  frame_requests (run evs w) = [AnimateCursor].
Proof.
  revert w; induction evs as [|ev evs IH]; intros w Ho Hrq; [auto |].
  destruct (dispatch_keeps_loop w ev Ho Hrq) as [Ho' Hrq'].
  exact (IH (dispatch w ev) Ho' Hrq').
Qed.

Lemma domContentLoaded_starts_loop (dot : option Style) (o : Style) :
  let w := Js.exec domContentLoaded (loaded dot (Some o)) in
  Js.completes domContentLoaded (loaded dot (Some o)) = true /\
  cursorOutline w <> None /\
  frame_requests w = [AnimateCursor].
Proof.
  cbv zeta; repeat split; simpl; congruence.
Qed.

(** When the page has no outline element the first call throws, the
    handler is abandoned, and no frame is ever requested. *)
Lemma dispatch_without_outline (w : World) (ev : event) :
  cursorOutline w = None /\ frame_requests w = [] /\
  hover_listeners w = false ->
  cursorOutline (dispatch w ev) = None /\
  frame_requests (dispatch w ev) = [] /\
  hover_listeners (dispatch w ev) = false.
Proof.
  world_cases w; simpl; intros (Ho & -> & ->); try congruence;
    destruct ev; simpl; destruct ml; simpl; auto.
Qed.

Lemma page_without_outline (dot : option Style) (evs : list event) :
  frame_requests (page dot None evs) = [].
Proof.
  unfold page.
  assert (H : cursorOutline (Js.exec domContentLoaded (loaded dot None))
              = None /\
              frame_requests (Js.exec domContentLoaded (loaded dot None))
              = [] /\
              hover_listeners (Js.exec domContentLoaded (loaded dot None))
              = false)
    by (repeat split; reflexivity).
  revert H; generalize (Js.exec domContentLoaded (loaded dot None)).
  induction evs as [|ev evs IH]; intros w H.
  - apply H.
  - apply (IH (dispatch w ev)), dispatch_without_outline, H.
Qed.

(** C8.  On a page that has the outline element: every execution of
    [animateCursor] completes normally and appends a request for itself to
    the pending frame requests; after start-up and after any sequence of
    events exactly that one request is pending, so the next display
    refresh executes [animateCursor] again, and again leaves its request
    pending.  No handler removes a request. *)
Theorem animation_loop_never_stops :
  (forall (w : World) (o : Style),
     cursorOutline w = Some o ->
     Js.completes animateCursor w = true /\
     frame_requests (Js.exec animateCursor w) =
       frame_requests w ++ [AnimateCursor]) /\
  (forall (dot : option Style) (o : Style) (evs : list event),
     let w := page dot (Some o) evs in
     frame_requests w = [AnimateCursor] /\
     dispatch w AnimationFrame =
       Js.exec animateCursor (set_frame_requests [] w) /\
     Js.completes animateCursor (set_frame_requests [] w) = true /\
     frame_requests (dispatch w AnimationFrame) = [AnimateCursor]).
Proof.
  split.
  - intros w o Ho; unfold Js.completes, Js.exec.
    rewrite (animateCursor_with_outline w o Ho); split; reflexivity.
  - intros dot o evs; cbv zeta; unfold page.
    destruct (domContentLoaded_starts_loop dot o) as (_ & Ho & Hrq).
    cbv zeta in Ho, Hrq.
    destruct (run_keeps_loop evs _ Ho Hrq) as [Ho' Hrq'].
    destruct (dispatch_keeps_loop _ AnimationFrame Ho' Hrq') as [_ Hrq''].
    repeat apply conj; auto.
    + cbn [dispatch]; rewrite Hrq'; reflexivity.
    + destruct (cursorOutline (run evs _)) as [o'|] eqn:E; [| congruence].
      unfold Js.completes.
      rewrite (animateCursor_with_outline _ o'); [reflexivity |].
      destruct (run evs _); simpl in *; exact E.
Qed.

Lemma animation_loop_never_stops_witness :
  let st := mkStyle None None EmptyString EmptyString in
  let w := loaded (Some st) (Some st) in
  Js.completes animateCursor w = true /\
  frame_requests (Js.exec animateCursor w) =
    frame_requests w ++ [AnimateCursor].
Proof.
  cbv zeta; eapply (proj1 animation_loop_never_stops); reflexivity.
Defined.

End CursorFacts.

(** ** The literal instances in binary64 *)

Section Binary64Facts.

Import Binary64.

Lemma binary64_parallax_literals :
  parallax_step 0 1 = lit_0_05 /\
  parallax_step (parallax_step 0 1) 1 = lit_0_0975.
Proof. split; reflexivity. Qed.

Lemma binary64_ease_literals :
  ease_step 0 100 = 50%float /\
  ease_step (ease_step 0 100) 100 = 75%float.
Proof. split; reflexivity. Qed.

End Binary64Facts.

(** ** More on the cursor follower: convergence, the visuals, failures *)

Section CursorFollowerFacts.

Import Cursor.

Ltac split_world w :=
  destruct w as [mx my ox oy [[dl dt dtr dbg]|] [[ol ot otr obg]|] rq ml hl].








(** X2.  A tick never overshoots: the new eased coordinate lies between
    the old eased coordinate and the raw one, on each axis. *)
Theorem animateCursor_no_overshoot (w : World) :
  let w' := Js.exec animateCursor w in
  (outlineX w <= mouseX w ->
   outlineX w <= outlineX w' /\ outlineX w' <= mouseX w) /\
  (mouseX w <= outlineX w ->
   mouseX w <= outlineX w' /\ outlineX w' <= outlineX w) /\
  (outlineY w <= mouseY w ->
   outlineY w <= outlineY w' /\ outlineY w' <= mouseY w) /\
  (mouseY w <= outlineY w ->
   mouseY w <= outlineY w' /\ outlineY w' <= outlineY w).
Proof.
  destruct (animateCursor_eases w) as (Hx & Hy & _ & _).
  cbv zeta in *; rewrite Hx, Hy.
  repeat split; lra.
Qed.

Lemma animateCursor_no_overshoot_witness :
  let st := mkStyle None None EmptyString EmptyString in
  let w := set_mouseX 10 (set_outlineX 30 (loaded (Some st) (Some st))) in
  mouseX w <= outlineX (Js.exec animateCursor w) /\
  outlineX (Js.exec animateCursor w) <= outlineX w.
Proof.
  cbv zeta.
  apply (proj1 (proj2 (animateCursor_no_overshoot _))).
  simpl; lra.
Defined.

(** *** The visuals follow the variables *)

Lemma animateCursor_syncs_outline (w : World) :
  cursorOutline w <> None ->
  exists o,
    cursorOutline (Js.exec animateCursor w) = Some o /\
    style_left o = Some (outlineX (Js.exec animateCursor w)) /\
    style_top o = Some (outlineY (Js.exec animateCursor w)).
Proof.
  split_world w; simpl; intros Ho; try congruence; eexists; repeat split.
Qed.

Lemma dispatch_keeps_outline_synced (w : World) (ev : event) :
  (exists o, cursorOutline w = Some o /\
             style_left o = Some (outlineX w) /\
             style_top o = Some (outlineY w)) ->
  exists o, cursorOutline (dispatch w ev) = Some o /\
            style_left o = Some (outlineX (dispatch w ev)) /\
            style_top o = Some (outlineY (dispatch w ev)).
Proof.
  intros (o & Ho & Hl & Ht).
  destruct ev as [cx cy | | |].
  - split_world w; simpl in *; destruct ml; simpl; eauto.
  - split_world w; simpl in *; destruct hl; simpl; try congruence;
      injection Ho as <-; simpl in *; eauto.
  - split_world w; simpl in *; destruct hl; simpl; try congruence;
      injection Ho as <-; simpl in *; eauto.
  - cbn [dispatch].
    assert (H0 : exists o0,
               cursorOutline (set_frame_requests [] w) = Some o0 /\
               style_left o0 = Some (outlineX (set_frame_requests [] w)) /\
               style_top o0 = Some (outlineY (set_frame_requests [] w)))
      by (exists o; destruct w; simpl in *; auto).
    revert H0; generalize (set_frame_requests [] w).
    induction (frame_requests w) as [|[] cbs IH]; intros w0 H0; [exact H0 |].
    cbn [fold_left run_callback]; apply IH.
    apply animateCursor_syncs_outline.
    destruct H0 as (o0 & -> & _); discriminate.
Qed.

(** X3.  On a page with the outline element, after start-up and any
    sequence of events the outline's [left] and [top] are the eased
    coordinates held by the closure. *)
Theorem outline_shows_eased_position
    (dot : option Style) (o : Style) (evs : list event) :
  let w := page dot (Some o) evs in
  exists o',
    cursorOutline w = Some o' /\
    style_left o' = Some (outlineX w) /\
    style_top o' = Some (outlineY w).
Proof.
  cbv zeta; unfold page.
  assert (H : exists o0,
             cursorOutline (Js.exec domContentLoaded (loaded dot (Some o)))
               = Some o0 /\
             style_left o0 =
               Some (outlineX (Js.exec domContentLoaded
                                 (loaded dot (Some o)))) /\
             style_top o0 =
               Some (outlineY (Js.exec domContentLoaded
                                 (loaded dot (Some o)))))
    by (eexists; repeat split).
  revert H; generalize (Js.exec domContentLoaded (loaded dot (Some o))).
  induction evs as [|ev evs IH]; intros w H; [exact H |].
  apply (IH (dispatch w ev)), dispatch_keeps_outline_synced, H.
Qed.

(** The pointer position recorded in a world, and shown by the dot when
    there is one. *)
Lemma dispatch_keeps_pointer (w : World) (ev : event) (cx cy : Q) :
  (forall x y, ev <> MouseMove x y) ->
  mouseX w = cx /\ mouseY w = cy /\
  (forall d, cursorDot w = Some d ->
             style_left d = Some cx /\ style_top d = Some cy) ->
  mouseX (dispatch w ev) = cx /\ mouseY (dispatch w ev) = cy /\
  (forall d, cursorDot (dispatch w ev) = Some d ->
             style_left d = Some cx /\ style_top d = Some cy).
Proof.
  intros Hev (Hx & Hy & Hd).
  destruct ev as [x y | | |].
  - destruct (Hev x y); reflexivity.
  - split_world w; simpl in *; destruct hl; simpl; repeat apply conj; auto;
      intros d [= <-]; simpl;
      try (destruct (Hd _ eq_refl); simpl in *; auto).
  - split_world w; simpl in *; destruct hl; simpl; repeat apply conj; auto;
      intros d [= <-]; simpl;
      try (destruct (Hd _ eq_refl); simpl in *; auto).
  - cbn [dispatch].
    assert (H0 : mouseX (set_frame_requests [] w) = cx /\
                 mouseY (set_frame_requests [] w) = cy /\
                 (forall d, cursorDot (set_frame_requests [] w) = Some d ->
                            style_left d = Some cx /\ style_top d = Some cy))
      by (destruct w; simpl in *; auto).
    revert H0; generalize (set_frame_requests [] w).
    induction (frame_requests w) as [|[] cbs IH]; intros w0 H0; [exact H0 |].
    cbn [fold_left run_callback]; apply IH.
    destruct H0 as (H1 & H2 & H3).
    split_world w0; simpl in *; repeat apply conj; auto.
Qed.

(** X4.  The dot follows the pointer at once and nothing else moves it:
    after a pointer move to [(cx, cy)] and any events that are not pointer
    moves, the raw position is [(cx, cy)], and so are [left] and [top] of
    the dot when the page has one. *)
Theorem dot_follows_pointer (w : World) (cx cy : Q) (evs : list event) :
  mousemove_listener w = true ->
  (forall ev x y, In ev evs -> ev <> MouseMove x y) ->
  let w' := run (MouseMove cx cy :: evs) w in
  mouseX w' = cx /\ mouseY w' = cy /\
  (forall d, cursorDot w' = Some d ->
             style_left d = Some cx /\ style_top d = Some cy).
Proof.
  intros Hl Hevs; cbv zeta.
  change (run (MouseMove cx cy :: evs) w)
    with (run evs (dispatch w (MouseMove cx cy))).
  assert (H : mouseX (dispatch w (MouseMove cx cy)) = cx /\
              mouseY (dispatch w (MouseMove cx cy)) = cy /\
              (forall d, cursorDot (dispatch w (MouseMove cx cy)) = Some d ->
                         style_left d = Some cx /\ style_top d = Some cy)).
  { split_world w; simpl in *; subst; simpl; repeat apply conj; auto;
      try (intros d [= <-]; simpl; auto); try discriminate. }
  revert H; generalize (dispatch w (MouseMove cx cy)).
  induction evs as [|ev evs IH]; intros w0 H; [exact H |].
  apply (IH (fun e x y He => Hevs e x y (in_cons _ _ _ He)) (dispatch w0 ev)).
  apply dispatch_keeps_pointer; [| exact H].
  intros x y; apply Hevs, in_eq.
Qed.

Lemma dot_follows_pointer_witness :
  let st := mkStyle None None EmptyString EmptyString in
  let w := page (Some st) (Some st) [] in
  let w' := run [MouseMove 12 34; AnimationFrame; MouseEnter; AnimationFrame]
                w in
  mouseX w' = 12 /\ mouseY w' = 34 /\
  (forall d, cursorDot w' = Some d ->
             style_left d = Some 12 /\ style_top d = Some 34).
Proof.
  cbv zeta; apply dot_follows_pointer; [reflexivity |].
  intros ev x y [<- | [<- | [<- | []]]]; discriminate.
Defined.

(** X5.  On a page without the dot element the [mousemove] listener
    throws, but only after it has stored the coordinates: the raw position
    is the pointer's and nothing else in the world has changed, so the
    outline still eases toward the pointer. *)
Theorem mousemove_without_dot (w : World) (cx cy : Q) :
  cursorDot w = None ->
  onMouseMove cx cy w =
    (Js.Throw Js.TypeError, set_mouseY cy (set_mouseX cx w)) /\
  outlineX (Js.exec animateCursor (Js.exec (onMouseMove cx cy) w)) =
    outlineX w + (cx - outlineX w) * 0.5 /\
  outlineY (Js.exec animateCursor (Js.exec (onMouseMove cx cy) w)) =
    outlineY w + (cy - outlineY w) * 0.5.
Proof.
  intros Hd.
  assert (H : onMouseMove cx cy w =
              (Js.Throw Js.TypeError, set_mouseY cy (set_mouseX cx w)))
    by (destruct w; simpl in *; subst; reflexivity).
  split; [exact H |].
  unfold Js.exec at 2 4; rewrite H; cbn [snd].
  destruct (animateCursor_eases (set_mouseY cy (set_mouseX cx w)))
    as (Hx & Hy & _ & _).
  cbv zeta in Hx, Hy; rewrite Hx, Hy.
  destruct w; split; reflexivity.
Qed.

Lemma mousemove_without_dot_witness :
  let st := mkStyle None None EmptyString EmptyString in
  let w := page None (Some st) [] in
  onMouseMove 7 9 w = (Js.Throw Js.TypeError, set_mouseY 9 (set_mouseX 7 w)).
Proof.
  cbv zeta; apply (mousemove_without_dot _ 7 9); reflexivity.
Defined.

(** *** Hover: the last event decides *)

Lemma callbacks_keep_hover (h : event) (cbs : list callback) (w : World) :
  h = MouseEnter \/ h = MouseLeave ->
  let w' := fold_left (fun w' cb => Js.exec (run_callback cb) w') cbs w in
  hover_state w' = hover_state w /\
  hover_state (dispatch w' h) = hover_state (dispatch w h).
Proof.
  intros Hh; revert w; induction cbs as [|[] cbs IH]; intros w; cbv zeta.
  - split; reflexivity.
  - cbn [fold_left run_callback].
    destruct (IH (Js.exec animateCursor w)) as [H1 H2].
    cbv zeta in H1, H2; rewrite H1, H2.
    destruct Hh as [-> | ->]; split_world w; destruct hl; split; reflexivity.
Qed.

(** An event before a hover event does not change what the hover event
    makes of the scale and fill state. *)
Lemma hover_overrides (h ev : event) (w : World) :
  h = MouseEnter \/ h = MouseLeave ->
  hover_state (dispatch (dispatch w ev) h) = hover_state (dispatch w h).
Proof.
  intros Hh; destruct ev as [cx cy | | |].
  - destruct Hh as [-> | ->]; split_world w; destruct ml, hl; reflexivity.
  - destruct Hh as [-> | ->]; split_world w; destruct hl; reflexivity.
  - destruct Hh as [-> | ->]; split_world w; destruct hl; reflexivity.
  - cbn [dispatch].
    destruct (callbacks_keep_hover h (frame_requests w)
                (set_frame_requests [] w) Hh) as [_ H2].
    cbv zeta in H2; rewrite H2.
    destruct Hh as [-> | ->]; split_world w; destruct hl; reflexivity.
Qed.

Lemma other_events_keep_hover (ev : event) (w : World) :
  ev <> MouseEnter -> ev <> MouseLeave ->
  hover_state (dispatch w ev) = hover_state w.
Proof.
  intros He Hl; destruct ev as [cx cy | | |]; try congruence.
  - split_world w; destruct ml; reflexivity.
  - cbn [dispatch].
    destruct (callbacks_keep_hover MouseEnter (frame_requests w)
                (set_frame_requests [] w) (or_introl eq_refl)) as [H1 _].
    cbv zeta in H1; rewrite H1; destruct w; reflexivity.
Qed.

(** X6.  The scale and fill state is decided by the last hover event
    alone: whatever came before it, and whatever pointer moves and frames
    came after it, the state is the one this hover event produces on the
    world the run started from. *)
Theorem last_hover_event_decides
    (before after : list event) (h : event) (w : World) :
  h = MouseEnter \/ h = MouseLeave ->
  (forall ev, In ev after -> ev <> MouseEnter /\ ev <> MouseLeave) ->
  hover_state (run (before ++ h :: after) w) = hover_state (dispatch w h).
Proof.
  intros Hh Hafter.
  unfold run; rewrite fold_left_app; cbn [fold_left].
  fold (run before w).
  fold (run after (dispatch (run before w) h)).
  assert (H1 : hover_state (run after (dispatch (run before w) h)) =
               hover_state (dispatch (run before w) h)).
  { generalize (dispatch (run before w) h).
    induction after as [|ev after IH]; intros w0; [reflexivity |].
    change (run (ev :: after) w0) with (run after (dispatch w0 ev)).
    rewrite IH by (intros e He; apply Hafter, in_cons, He).
    destruct (Hafter ev (in_eq _ _)).
    apply other_events_keep_hover; assumption. }
  rewrite H1; clear H1 Hafter.
  revert w; induction before as [|ev before IH]; intros w; [reflexivity |].
  change (run (ev :: before) w) with (run before (dispatch w ev)).
  rewrite IH; apply hover_overrides, Hh.
Qed.

Lemma last_hover_event_decides_witness :
  let st := mkStyle None None EmptyString EmptyString in
  let w := page (Some st) (Some st) [] in
  hover_state
    (run ([MouseEnter; MouseMove 1 2; MouseEnter; AnimationFrame]
            ++ MouseLeave :: [AnimationFrame; MouseMove 5 6]) w) =
  hover_state (dispatch w MouseLeave).
Proof.
  cbv zeta; apply last_hover_event_decides; [right; reflexivity |].
  intros ev [<- | [<- | []]]; split; discriminate.
Defined.

(** X7.  Pointer-leave undoes pointer-enter and the other way round:
    each listener overwrites everything the other wrote, so leave after
    enter leaves the world leave alone leaves, enter after leave the world
    enter alone leaves, and leave is idempotent.  With both elements
    present, leave sets both transforms to [scale(1)] and the outline's
    fill to [transparent]. *)
Theorem mouseleave_restores (w : World) :
  Js.exec onMouseLeave (Js.exec onMouseEnter w) = Js.exec onMouseLeave w /\
  Js.exec onMouseEnter (Js.exec onMouseLeave w) = Js.exec onMouseEnter w /\
  Js.exec onMouseLeave (Js.exec onMouseLeave w) = Js.exec onMouseLeave w /\
  (cursorOutline w <> None -> cursorDot w <> None ->
   Js.completes onMouseLeave w = true /\
   hover_state (Js.exec onMouseLeave w) =
   (Some ("translate(-50%, -50%) scale(1)"%string, "transparent"%string),
    Some "translate(-50%, -50%) scale(1)"%string)).
Proof.
  split_world w; repeat apply conj; try reflexivity;
    simpl; intros Ho Hd; try congruence; split; reflexivity.
Qed.

Lemma mouseleave_restores_witness :
  let st := mkStyle None None EmptyString EmptyString in
  let w := page (Some st) (Some st) [MouseEnter] in
  Js.completes onMouseLeave w = true /\
  hover_state (Js.exec onMouseLeave w) =
  (Some ("translate(-50%, -50%) scale(1)"%string, "transparent"%string),
   Some "translate(-50%, -50%) scale(1)"%string).
Proof.
  cbv zeta; apply mouseleave_restores; simpl; congruence.
Defined.

Lemma dispatch_keeps_dotless_page (w : World) (ev : event) :
  cursorDot w = None /\ cursorOutline w <> None /\
  hover_listeners w = true /\ frame_requests w = [AnimateCursor] ->
  cursorDot (dispatch w ev) = None /\
  cursorOutline (dispatch w ev) <> None /\
  hover_listeners (dispatch w ev) = true /\
  frame_requests (dispatch w ev) = [AnimateCursor].
Proof.
  intros (Hd & Ho & Hh & Hrq).
  split_world w; simpl in *; subst; try congruence;
    destruct ev; simpl; destruct ml; simpl; repeat split; congruence.
Qed.

(** X8.  A page with the outline element but without the dot element
    starts up normally, and from then on every hover listener restyles the
    outline and then throws at its statement for the dot: after any events,
    pointer-enter leaves the outline at [scale(1.5)] with the translucent
    fill, pointer-leave at [scale(1)] and [transparent], and neither
    completes normally. *)
Theorem hover_without_dot (o : Style) (evs : list event) :
  let w := page None (Some o) evs in
  Js.completes domContentLoaded (loaded None (Some o)) = true /\
  hover_listeners w = true /\
  Js.completes onMouseEnter w = false /\
  Js.completes onMouseLeave w = false /\
  hover_state (dispatch w MouseEnter) =
    (Some ("translate(-50%, -50%) scale(1.5)"%string,
           "rgba(255, 255, 255, 0.1)"%string), None) /\
  hover_state (dispatch w MouseLeave) =
    (Some ("translate(-50%, -50%) scale(1)"%string, "transparent"%string),
     None).
Proof.
  cbv zeta; split; [reflexivity |]; unfold page.
  assert (H : let w0 := Js.exec domContentLoaded (loaded None (Some o)) in
              cursorDot w0 = None /\ cursorOutline w0 <> None /\
              hover_listeners w0 = true /\
              frame_requests w0 = [AnimateCursor])
    by (cbv zeta; repeat split; simpl; congruence).
  cbv zeta in H; revert H.
  generalize (Js.exec domContentLoaded (loaded None (Some o))).
  induction evs as [|ev evs IH]; intros w H.
  - destruct H as (Hd & Ho & Hh & _).
    split_world w; simpl in *; subst; try congruence; repeat split.
  - apply (IH (dispatch w ev)), dispatch_keeps_dotless_page, H.
Qed.

(** X9.  A page without the outline element never animates and never
    reacts to hovering: the start-up handler throws at its first call of
    [animateCursor], after registering the [mousemove] listener and before
    registering the hover listeners; whatever events follow, no frame
    request is pending, the eased position stays at the origin, and the
    scale and fill state is the initial one. *)
Theorem startup_without_outline (dot : option Style) (evs : list event) :
  let w := page dot None evs in
  Js.completes domContentLoaded (loaded dot None) = false /\
  frame_requests w = [] /\
  mousemove_listener w = true /\
  hover_listeners w = false /\
  outlineX w == 0 /\ outlineY w == 0 /\
  hover_state w = hover_state (loaded dot None).
Proof.
  cbv zeta; split; [reflexivity |]; unfold page.
  assert (H : let w0 := Js.exec domContentLoaded (loaded dot None) in
              cursorOutline w0 = None /\ frame_requests w0 = [] /\
              mousemove_listener w0 = true /\ hover_listeners w0 = false /\
              outlineX w0 == 0 /\ outlineY w0 == 0 /\
              hover_state w0 = hover_state (loaded dot None))
    by (cbv zeta; repeat apply conj; reflexivity).
  cbv zeta in H; revert H.
  generalize (hover_state (loaded dot None)).
  generalize (Js.exec domContentLoaded (loaded dot None)).
  induction evs as [|ev evs IH]; intros w hs H; [apply H |].
  apply (IH (dispatch w ev)).
  destruct H as (Ho & Hrq & Hml & Hhl & Hx & Hy & Hhs).
  split_world w; simpl in *; subst; try congruence;
    destruct ev; simpl; repeat apply conj; auto.
Qed.

End CursorFollowerFacts.

(** ** More on the particle field *)

Section ParticleEntries.

Import Portfolio.

Variable colorObj : Color.
Variable random : nat -> Q.

(** After [m] iterations on arrays of length [n]: particle [i < m] holds
    the values computed from draws [5 i .. 5 i + 4], converted to
    binary32. *)
Lemma loop_entries (n m : nat) (st : GenState) :
  (m * 3 <= n)%nat ->
  List.length (gen_positions st) = n ->
  List.length (gen_colors st) = n ->
  gen_draws st = 0%nat ->
  let st' := generateParticles_loop colorObj random m st in
  List.length (gen_positions st') = n /\
  List.length (gen_colors st') = n /\
  gen_draws st' = (5 * m)%nat /\
  (forall i, (i < m)%nat ->
     load (gen_positions st') (i * 3) =
       Binary32.fround ((random (5 * i) - 0.5) * 15) /\
     load (gen_positions st') (i * 3 + 1) =
       Binary32.fround ((random (5 * i + 1) - 0.5) * 15) /\
     load (gen_positions st') (i * 3 + 2) =
       Binary32.fround ((random (5 * i + 2) - 0.5) * 15) /\
     load (gen_colors st') (i * 3) = Binary32.fround (r colorObj) /\
     load (gen_colors st') (i * 3 + 1) =
       Binary32.fround (g colorObj + random (5 * i + 3) * 0.2) /\
     load (gen_colors st') (i * 3 + 2) =
       Binary32.fround (b colorObj + random (5 * i + 4) * 0.5)) /\
  (forall j, (m * 3 <= j)%nat ->
     load (gen_positions st') j = load (gen_positions st) j /\
     load (gen_colors st') j = load (gen_colors st) j).
Proof.
  intros Hm Hp Hc Hd; cbv zeta; unfold generateParticles_loop.
  induction m as [|m IH].
  - simpl; repeat apply conj; auto; intros i Hi; lia.
  - rewrite seq_S, fold_left_app; cbn [fold_left].
    change (0 + m)%nat with m.
    destruct IH as (IHp & IHc & IHd & IHe & IHr); [lia |].
    set (st' := fold_left (generateParticles_body colorObj random)
                          (seq 0 m) st) in *.
    unfold generateParticles_body; cbn [gen_positions gen_colors gen_draws].
    rewrite !store_length, IHd.
    repeat apply conj; auto; try lia.
    + intros i Hi.
      assert (Hcases : (i < m)%nat \/ i = m) by lia.
      destruct Hcases as [Hlt | ->].
      * rewrite !load_store_other by lia; apply IHe, Hlt.
      * rewrite !(load_store_other _ (m * 3 + 2) (m * 3)) by lia.
        rewrite !(load_store_other _ (m * 3 + 1) (m * 3)) by lia.
        rewrite !(load_store_other _ (m * 3 + 2) (m * 3 + 1)) by lia.
        rewrite !load_store_same by (rewrite ?store_length; lia).
        repeat apply conj; reflexivity.
    + intros j Hj; rewrite !load_store_other by lia.
      apply IHr; lia.
Qed.

Lemma generateParticles_entries (count i : nat) :
  (i < count)%nat ->
  let ps := generateParticles colorObj random count in
  load (positions ps) (i * 3) =
       Binary32.fround ((random (5 * i) - 0.5) * 15) /\
  load (positions ps) (i * 3 + 1) =
       Binary32.fround ((random (5 * i + 1) - 0.5) * 15) /\
  load (positions ps) (i * 3 + 2) =
       Binary32.fround ((random (5 * i + 2) - 0.5) * 15) /\
  load (colors ps) (i * 3) = Binary32.fround (r colorObj) /\
  load (colors ps) (i * 3 + 1) =
       Binary32.fround (g colorObj + random (5 * i + 3) * 0.2) /\
  load (colors ps) (i * 3 + 2) =
       Binary32.fround (b colorObj + random (5 * i + 4) * 0.5).
Proof.
  intros Hi; cbv zeta; unfold generateParticles; cbn [positions colors].
  destruct (loop_entries (count * 3) count
              (mkGen (new_Float32Array (count * 3))
                     (new_Float32Array (count * 3)) 0))
    as (_ & _ & _ & He & _);
    try (apply repeat_length); auto.
Qed.

(** X10.  Every entry of the two arrays is the binary32 conversion of a
    value computed from one draw of its own: particle [i] takes its three
    coordinates from draws [5 i], [5 i + 1], [5 i + 2] (each shifted by
    [0.5] and scaled by [15]), its green from draw [5 i + 3] scaled by
    [0.2] and its blue from draw [5 i + 4] scaled by [0.5], its red is the
    base; a run makes [5 * count] draws in all. *)
Theorem generateParticles_uses_five_draws_per_particle (count i : nat) :
  (i < count)%nat ->
  let ps := generateParticles colorObj random count in
  (load (positions ps) (i * 3) =
       Binary32.fround ((random (5 * i) - 0.5) * 15) /\
   load (positions ps) (i * 3 + 1) =
       Binary32.fround ((random (5 * i + 1) - 0.5) * 15) /\
   load (positions ps) (i * 3 + 2) =
       Binary32.fround ((random (5 * i + 2) - 0.5) * 15) /\
   load (colors ps) (i * 3) = Binary32.fround (r colorObj) /\
   load (colors ps) (i * 3 + 1) =
       Binary32.fround (g colorObj + random (5 * i + 3) * 0.2) /\
   load (colors ps) (i * 3 + 2) =
       Binary32.fround (b colorObj + random (5 * i + 4) * 0.5)) /\
  gen_draws
    (generateParticles_loop colorObj random count
       (mkGen (new_Float32Array (count * 3))
              (new_Float32Array (count * 3)) 0)) = (5 * count)%nat.
Proof.
  intros Hi; cbv zeta; split.
  - apply generateParticles_entries, Hi.
  - destruct (loop_entries (count * 3) count
                (mkGen (new_Float32Array (count * 3))
                       (new_Float32Array (count * 3)) 0))
      as (_ & _ & Hd & _);
      try (apply repeat_length); auto.
Qed.

End ParticleEntries.

Lemma generateParticles_uses_five_draws_per_particle_witness :
  let colorObj := Portfolio.mkColor 0 1 (13 # 51) in
  let random := fun k : nat => 1 # Pos.of_nat (k + 2) in
  let ps := Portfolio.generateParticles colorObj random 3 in
  Portfolio.load (Portfolio.positions ps) (2 * 3 + 1) =
    Binary32.fround ((random (5 * 2 + 1)%nat - 0.5) * 15).
Proof.
  cbv zeta.
  apply (generateParticles_uses_five_draws_per_particle
           (Portfolio.mkColor 0 1 (13 # 51))
           (fun k : nat => 1 # Pos.of_nat (k + 2)) 3 2).
  lia.
Defined.

Section ParticleIndependence.

Import Portfolio.

(** X11.  Particles are not coupled: two runs whose random sources agree
    on the five draws of particle [i] give particle [i] the same position
    and the same colour, whatever the other draws and whatever the two
    counts. *)
Theorem particles_are_independent
    (colorObj : Color) (random1 random2 : nat -> Q) (count1 count2 i : nat) :
  (i < count1)%nat -> (i < count2)%nat ->
  (forall k, (k < 5)%nat -> random1 (5 * i + k)%nat = random2 (5 * i + k)%nat) ->
  let ps1 := generateParticles colorObj random1 count1 in
  let ps2 := generateParticles colorObj random2 count2 in
  forall k, (k < 3)%nat ->
    load (positions ps1) (i * 3 + k) = load (positions ps2) (i * 3 + k) /\
    load (colors ps1) (i * 3 + k) = load (colors ps2) (i * 3 + k).
Proof.
  intros H1 H2 Hr; cbv zeta.
  destruct (generateParticles_entries colorObj random1 count1 i H1)
    as (P0 & P1 & P2 & C0 & C1 & C2).
  destruct (generateParticles_entries colorObj random2 count2 i H2)
    as (Q0 & Q1 & Q2 & D0 & D1 & D2).
  cbv zeta in *.
  pose proof (Hr 0%nat ltac:(lia)) as R0; rewrite Nat.add_0_r in R0.
  pose proof (Hr 1%nat ltac:(lia)) as R1.
  pose proof (Hr 2%nat ltac:(lia)) as R2.
  pose proof (Hr 3%nat ltac:(lia)) as R3.
  pose proof (Hr 4%nat ltac:(lia)) as R4.
  intros k Hk.
  assert (Hcases : k = 0%nat \/ k = 1%nat \/ k = 2%nat) by lia.
  destruct Hcases as [-> | [-> | ->]]; rewrite ?Nat.add_0_r; split; congruence.
Qed.

Lemma particles_are_independent_witness :
  let colorObj := mkColor 0 1 (13 # 51) in
  let random1 := fun k : nat => if (k <? 5)%nat then 0.25 else 0.75 in
  let random2 := fun k : nat => if (k <? 5)%nat then 0.25 else 0.5 in
  load (positions (generateParticles colorObj random1 2)) (0 * 3 + 1) =
  load (positions (generateParticles colorObj random2 4)) (0 * 3 + 1).
Proof.
  cbv zeta.
  apply (particles_are_independent
           (mkColor 0 1 (13 # 51))
           (fun k : nat => if (k <? 5)%nat then 0.25 else 0.75)
           (fun k : nat => if (k <? 5)%nat then 0.25 else 0.5)
           2 4 0); try lia.
  intros k Hk; simpl.
  destruct k as [|[|[|[|[|k]]]]]; try reflexivity; lia.
Defined.

End ParticleIndependence.

(** ** More on the pointer state and the frame *)

Section ParallaxFacts.

Import Portfolio.

(** X12.  The pointer moves the field by at most [0.025] per axis: after
    any sequence of ref attachments, frames and pointer moves inside a
    viewport of positive size, a frame with the handle set leaves on each
    axis a rotation within [0.025] of [0.95] times the autonomous
    rotation. *)
Theorem pointer_shifts_rotation_by_at_most
    (evs : list event) (time : Q) (p : Points) :
  Forall in_viewport evs ->
  points_current (run evs initial_scene) = Some p ->
  let s' := Js.exec (useFrame_callback time) (run evs initial_scene) in
  exists vx vy,
    rotation AxisX s' = Some vx /\
    rotation AxisY s' = Some vy /\
    (-0.025 <= vx - 0.95 * (time * 0.05) /\
     vx - 0.95 * (time * 0.05) <= 0.025) /\
    (-0.025 <= vy - 0.95 * (time * 0.03) /\
     vy - 0.95 * (time * 0.03) <= 0.025).
Proof.
  intros Hevs Hp; cbv zeta.
  assert (Hn : normalized (mouse_current (run evs initial_scene))).
  { apply run_normalized; [exact Hevs |].
    unfold normalized; simpl; repeat split; lra. }
  destruct (run evs initial_scene) as [pc m l]; simpl in Hp, Hn; subst pc.
  unfold Js.exec; rewrite useFrame_callback_present; cbn [snd].
  destruct Hn as [[Hx0 Hx1] [Hy0 Hy1]].
  unfold rotation; cbn [points_current option_map get_rotation
                         rotation_x rotation_y].
  do 2 eexists; split; [reflexivity | split; [reflexivity |]].
  repeat split; lra.
Qed.

Lemma pointer_shifts_rotation_by_at_most_witness :
  let evs := [AttachRef (Some (mkPoints 0 0)); MouseMove 100 0 100 50;
              Frame 1; MouseMove 0 50 100 50] in
  let s' := Js.exec (useFrame_callback 2) (run evs initial_scene) in
  exists vx vy,
    rotation AxisX s' = Some vx /\
    rotation AxisY s' = Some vy /\
    (-0.025 <= vx - 0.95 * (2 * 0.05) /\
     vx - 0.95 * (2 * 0.05) <= 0.025) /\
    (-0.025 <= vy - 0.95 * (2 * 0.03) /\
     vy - 0.95 * (2 * 0.03) <= 0.025).
Proof.
  cbv zeta.
  eapply (pointer_shifts_rotation_by_at_most _ 2).
  - repeat constructor; simpl; lra.
  - reflexivity.
Defined.

(** X13.  In a viewport of positive size the normalisation loses nothing
    and keeps the horizontal order while reversing the vertical one: the
    pixel coordinates are recovered as [(x + 1) / 2 * innerWidth] and
    [(1 - y) / 2 * innerHeight]; a pointer further right has a larger [x],
    a pointer further down a smaller [y]; the centre of the viewport maps
    to [(0, 0)]; the rendered object and its rotation are not touched. *)
Theorem handleMouseMove_is_an_affine_bijection
    (w h : Q) (s : Scene) :
  0 < w -> 0 < h ->
  let m := fun cx cy =>
    mouse_current (Js.exec (handleMouseMove cx cy w h) s) in
  (forall cx cy,
     (fst (m cx cy) + 1) / 2 * w == cx /\
     (1 - snd (m cx cy)) / 2 * h == cy) /\
  (forall cx1 cx2 cy, cx1 < cx2 -> fst (m cx1 cy) < fst (m cx2 cy)) /\
  (forall cx cy1 cy2, cy1 < cy2 -> snd (m cx cy2) < snd (m cx cy1)) /\
  (fst (m (w / 2) (h / 2)) == 0 /\ snd (m (w / 2) (h / 2)) == 0) /\
  (forall cx cy,
     points_current (Js.exec (handleMouseMove cx cy w h) s)
       = points_current s /\
     log (Js.exec (handleMouseMove cx cy w h) s) = log s).
Proof.
  intros Hw Hh; cbv zeta.
  assert (Hdiv : forall a b d, 0 < d -> a < b -> a / d < b / d).
  { intros a b d Hd Hab; unfold Qdiv.
    apply Qmult_lt_compat_r; [apply Qinv_lt_0_compat, Hd | exact Hab]. }
  repeat apply conj.
  - intros cx cy; rewrite handleMouseMove_exec; simpl; split; field; lra.
  - intros cx1 cx2 cy Hlt; rewrite !handleMouseMove_exec; simpl.
    pose proof (Hdiv cx1 cx2 w Hw Hlt); lra.
  - intros cx cy1 cy2 Hlt; rewrite !handleMouseMove_exec; simpl.
    pose proof (Hdiv cy1 cy2 h Hh Hlt); lra.
  - rewrite handleMouseMove_exec; simpl; field; lra.
  - rewrite handleMouseMove_exec; simpl; field; lra.
  - intros cx cy; rewrite handleMouseMove_exec; split; reflexivity.
Qed.

Lemma handleMouseMove_is_an_affine_bijection_witness :
  (fst (mouse_current
          (Js.exec (handleMouseMove 200 150 800 600) initial_scene)) + 1)
    / 2 * 800 == 200 /\
  (1 - snd (mouse_current
              (Js.exec (handleMouseMove 200 150 800 600) initial_scene)))
    / 2 * 600 == 150.
Proof.
  apply (proj1 (handleMouseMove_is_an_affine_bijection
                  800 600 initial_scene eq_refl eq_refl) 200 150).
Defined.

End ParallaxFacts.

(** ** The word-by-word reveal *)

Section BlurRevealFacts.

Import Components.

Open Scope string_scope.

Lemma split_space_nonempty (text : string) : split_space text <> [].
Proof.
  destruct text as [|c rest]; simpl; [discriminate |].
  destruct (is_space c); [discriminate |].
  destruct (split_space rest); discriminate.
Qed.

Lemma is_space_spec (c : ascii) : is_space c = true -> c = " "%char.
Proof. unfold is_space; apply Ascii.eqb_eq. Qed.

Lemma split_space_join (text : string) :
  String.concat " " (split_space text) = text.
Proof.
  induction text as [|c rest IH]; [reflexivity |].
  pose proof (split_space_nonempty rest) as Hne.
  simpl; destruct (is_space c) eqn:Hc.
  - apply is_space_spec in Hc; subst c.
    destruct (split_space rest) as [|w ws]; [congruence |].
    change (String.concat " " (EmptyString :: w :: ws))
      with (String " " (String.concat " " (w :: ws))).
    rewrite IH; reflexivity.
  - destruct (split_space rest) as [|w [|w' ws]]; [congruence | |].
    + simpl in *; rewrite IH; reflexivity.
    + change (String.concat " " (String c w :: w' :: ws))
        with (String c (String.concat " " (w :: w' :: ws))).
      rewrite IH; reflexivity.
Qed.

Lemma split_space_length (text : string) :
  List.length (split_space text) =
  S (List.length (filter is_space (list_ascii_of_string text))).
Proof.
  induction text as [|c rest IH]; [reflexivity |].
  pose proof (split_space_nonempty rest) as Hne.
  simpl; destruct (is_space c); simpl.
  - rewrite IH; reflexivity.
  - destruct (split_space rest) as [|w ws]; [congruence |].
    simpl in *; exact IH.
Qed.

Lemma split_space_words (text : string) :
  forall word, In word (split_space text) ->
  filter is_space (list_ascii_of_string word) = [].
Proof.
  induction text as [|c rest IH]; simpl.
  - intros word [<- | []]; reflexivity.
  - destruct (is_space c) eqn:Hc.
    + intros word [<- | Hin]; [reflexivity | apply IH, Hin].
    + destruct (split_space rest) as [|w ws].
      * intros word [<- | []]; simpl; rewrite Hc; reflexivity.
      * intros word [<- | Hin].
        -- simpl; rewrite Hc; apply IH, in_eq.
        -- apply IH, in_cons, Hin.
Qed.

(** X14.  [text.split(" ")] loses nothing: joining the words with single
    spaces gives the text back; there is one more word than the text has
    spaces (so at least one, also for the empty text), and no word contains
    a space. *)
Theorem split_space_round_trip (text : string) :
  String.concat " " (split_space text) = text /\
  List.length (split_space text) =
    S (List.length (filter is_space (list_ascii_of_string text))) /\
  (forall word, In word (split_space text) ->
     filter is_space (list_ascii_of_string word) = []).
Proof.
  split; [apply split_space_join | split].
  - apply split_space_length.
  - apply split_space_words.
Qed.

Lemma map_words_nth (delay : Q) (words : list string) :
  forall start i sp,
    nth_error (map_words delay start words) i = Some sp ->
    span_key sp = (start + i)%nat /\
    nth_error words i = Some (span_word sp) /\
    span_delay sp = (delay + inject_Z (Z.of_nat (start + i)) * 0.15)%Q /\
    span_duration sp = 0.8%Q.
Proof.
  induction words as [|word rest IH]; intros start i sp H.
  - destruct i; discriminate H.
  - destruct i as [|i]; simpl in H.
    + injection H as <-; rewrite Nat.add_0_r; repeat split.
    + destruct (IH (S start) i sp H) as (H1 & H2 & H3 & H4).
      rewrite Nat.add_succ_r; auto.
Qed.

Lemma map_words_words (delay : Q) (words : list string) (start : nat) :
  map span_word (map_words delay start words) = words.
Proof.
  revert start; induction words as [|word rest IH]; intros start;
    [reflexivity |].
  simpl; rewrite IH; reflexivity.
Qed.

(** X15.  [BlurReveal] renders the words of the text in order, one span
    per word, so the spans' texts joined by spaces are the text; the span
    at index [i] has key [i] and starts [0.15 * i] after the given delay
    ([0] when omitted), with duration [0.8]: each word starts [0.15] after
    the one before it. *)
Theorem BlurReveal_staggers_words (text : string) (delay : option Q) :
  let spans := BlurReveal text delay in
  let d := match delay with Some d => d | None => 0%Q end in
  String.concat " " (map span_word spans) = text /\
  List.length spans =
    S (List.length (filter is_space (list_ascii_of_string text))) /\
  (forall i sp, nth_error spans i = Some sp ->
     span_key sp = i /\
     span_delay sp = (d + inject_Z (Z.of_nat i) * 0.15)%Q /\
     span_duration sp = 0.8%Q) /\
  (forall i sp sp', nth_error spans i = Some sp ->
     nth_error spans (S i) = Some sp' ->
     (span_delay sp' == span_delay sp + 0.15)%Q).
Proof.
  cbv zeta; unfold BlurReveal.
  rewrite map_words_words, split_space_join.
  repeat apply conj.
  - reflexivity.
  - rewrite <- split_space_length, <- (map_words_words
      (match delay with Some d => d | None => 0%Q end) (split_space text) 0).
    rewrite length_map, map_words_words; reflexivity.
  - intros i sp H; apply map_words_nth in H; tauto.
  - intros i sp sp' H H'.
    apply map_words_nth in H; apply map_words_nth in H'.
    destruct H as (_ & _ & -> & _), H' as (_ & _ & -> & _).
    cbn [Nat.add]; rewrite Nat2Z.inj_succ, <- Z.add_1_r, inject_Z_plus.
    ring.
Qed.

Example BlurReveal_hero_title :
  map (fun sp => (span_key sp, span_word sp))
      (BlurReveal "React, TS & Next.js" (Some 0.5%Q)) =
  [(0%nat, "React,"); (1%nat, "TS"); (2%nat, "&"); (3%nat, "Next.js")].
Proof. reflexivity. Qed.

End BlurRevealFacts.

Lemma split_space_round_trip_witness :
  filter Components.is_space (list_ascii_of_string "TS") = [].
Proof.
  apply (proj2 (proj2 (split_space_round_trip "React, TS & Next.js"))).
  simpl; auto.
Defined.

Lemma BlurReveal_staggers_words_witness :
  let sp := Components.mkWordSpan 1 "Developer"
              (0 + inject_Z (Z.of_nat 1) * 0.15) 0.8 in
  Components.span_key sp = 1%nat /\
  Components.span_delay sp = 0 + inject_Z (Z.of_nat 1) * 0.15 /\
  Components.span_duration sp = 0.8.
Proof.
  cbv zeta.
  apply (proj1 (proj2 (proj2
           (BlurReveal_staggers_words "Frontend Developer" None))) 1%nat).
  reflexivity.
Defined.

(** ** The preview pane of a case study *)

Section CaseStudyFacts.

Import Components.

Variable URL_hostname : string -> option string.
Variable Node : Type.

(** Neither the string [undefined] nor the empty string is an absolute
    URL: the constructor throws on both. *)
Hypothesis URL_undefined : URL_hostname "undefined" = None.
Hypothesis URL_empty : URL_hostname EmptyString = None.

Lemma falsy_has_no_hostname (demoUrl : option string) :
  truthy demoUrl = false -> URL_hostname (to_string demoUrl) = None.
Proof.
  destruct demoUrl as [[|c s]|]; simpl; auto; discriminate.
Qed.

(** X16.  What rendering the preview pane of [CaseStudy] does.  With a
    [media] node it shows that node and constructs no URL.  Without one it
    completes only when [demoUrl] is a non-empty string that parses as a
    URL, and then shows the host name, the link to the demo and no
    Lighthouse badge.  In every other case it throws a [TypeError]: when
    [demoUrl] is missing or empty the placeholder branch itself calls
    [new URL(demoUrl)].  So a completed render never shows the placeholder
    or the Lighthouse badge. *)
Theorem CaseStudy_preview_outcomes
    (title : string) (media : option Node) (demoUrl : option string) :
  let render := CaseStudy_preview URL_hostname Node title media demoUrl tt in
  (forall m, media = Some m -> render = (Js.Normal (CustomMedia m), tt)) /\
  (forall host, media = None -> truthy demoUrl = true ->
     URL_hostname (to_string demoUrl) = Some host ->
     render =
       (Js.Normal
          (BrowserMock host
             (DemoLink (to_string demoUrl) ("Preview of " ++ title)%string)
             false), tt)) /\
  (media = None ->
   truthy demoUrl = false \/ URL_hostname (to_string demoUrl) = None ->
   render = (Js.Throw Js.TypeError, tt)) /\
  (forall v, fst render = Js.Normal v ->
     (forall host placeholder badge,
        v <> BrowserMock host (Placeholder placeholder) badge) /\
     (forall host body, v <> BrowserMock host body true)).
Proof.
  cbv zeta; unfold CaseStudy_preview, new_URL_hostname, Js.bind, Js.ret,
    Js.throw.
  repeat apply conj.
  - intros m ->; reflexivity.
  - intros host -> Ht Hh; rewrite Ht, Hh; reflexivity.
  - intros -> [Hf | Hn].
    + rewrite Hf, (falsy_has_no_hostname demoUrl Hf); reflexivity.
    + destruct (truthy demoUrl) eqn:Ht.
      * rewrite Hn; reflexivity.
      * rewrite (falsy_has_no_hostname demoUrl Ht); reflexivity.
  - destruct media as [m|]; simpl.
    + intros v [= <-]; split; discriminate.
    + destruct (truthy demoUrl) eqn:Ht.
      * destruct (URL_hostname (to_string demoUrl)); simpl;
          intros v Hv; [injection Hv as <-; split; discriminate |
                        discriminate Hv].
      * rewrite (falsy_has_no_hostname demoUrl Ht); simpl.
        intros v Hv; discriminate Hv.
Qed.

End CaseStudyFacts.

Lemma CaseStudy_preview_outcomes_witness :
  let URL_hostname := fun s : string =>
    if String.prefix "https://" s
    then Some (String.substring 8 (String.length s - 8) s)
    else None in
  Components.CaseStudy_preview URL_hostname unit "Admin Dashboard" None None tt
    = (Js.Throw Js.TypeError, tt) /\
  Components.CaseStudy_preview URL_hostname unit "Admin Dashboard" None
    (Some "https://example.org"%string) tt
    = (Js.Normal
         (Components.BrowserMock "example.org"
            (Components.DemoLink "https://example.org"
                                 "Preview of Admin Dashboard")
            false), tt).
Proof.
  cbv zeta; split.
  - apply (proj1 (proj2 (proj2
      (CaseStudy_preview_outcomes _ unit eq_refl eq_refl
         "Admin Dashboard" None None)))); auto.
  - apply (proj1 (proj2
      (CaseStudy_preview_outcomes _ unit eq_refl eq_refl
         "Admin Dashboard" None (Some "https://example.org"%string))));
      reflexivity.
Defined.

(** ** The scroll reveal *)

Section RevealFacts.

Import Reveal.

Variable document : nat -> Element.
Variable animatedElements : list nat.

Lemma is_observed_In (el : nat) (w : World) :
  is_observed el w = true <-> In el (observed w).
Proof.
  unfold is_observed; rewrite existsb_exists; split.
  - intros (n & Hin & Heq); apply Nat.eqb_eq in Heq; subst; exact Hin.
  - intros Hin; exists el; split; [exact Hin | apply Nat.eqb_refl].
Qed.

Lemma is_animated_In (el : nat) :
  is_animated animatedElements el = true <-> In el animatedElements.
Proof.
  unfold is_animated; rewrite existsb_exists; split.
  - intros (n & Hin & Heq); apply Nat.eqb_eq in Heq; subst; exact Hin.
  - intros Hin; exists el; split; [exact Hin | apply Nat.eqb_refl].
Qed.

Lemma add_token_idempotent (token : string) (tokens : list string) :
  add_token token (add_token token tokens) = add_token token tokens.
Proof.
  unfold add_token.
  destruct (existsb (String.eqb token) tokens) eqn:E.
  - rewrite E; reflexivity.
  - rewrite existsb_app; simpl.
    rewrite String.eqb_refl, orb_true_r; reflexivity.
Qed.

Lemma add_token_In (token : string) (tokens : list string) (t : string) :
  In t (add_token token tokens) <-> In t tokens \/ t = token.
Proof.
  unfold add_token; destruct (existsb (String.eqb token) tokens) eqn:E.
  - split; [auto | intros [H | ->]; [exact H |]].
    apply existsb_exists in E; destruct E as (x & Hx & Heq).
    apply String.eqb_eq in Heq; subst; exact Hx.
  - rewrite in_app_iff; simpl; intuition congruence.
Qed.

Lemma is_observed_unobserve (t el : nat) (w : World) :
  is_observed el (unobserve t w) =
  if Nat.eqb t el then false else is_observed el w.
Proof.
  unfold is_observed, unobserve; cbn [observed].
  induction (observed w) as [|n l IH]; simpl.
  - destruct (Nat.eqb t el); reflexivity.
  - destruct (Nat.eqb t n) eqn:Etn; simpl.
    + rewrite IH; apply Nat.eqb_eq in Etn; subst n.
      destruct (Nat.eqb t el) eqn:Ete; [reflexivity |].
      rewrite Nat.eqb_sym, Ete; reflexivity.
    + rewrite IH; destruct (Nat.eqb t el) eqn:Ete; [| reflexivity].
      apply Nat.eqb_eq in Ete; subst el; rewrite Etn; reflexivity.
Qed.

Lemma is_observed_observe (t el : nat) (w : World) :
  is_observed el (observe t w) = Nat.eqb el t || is_observed el w.
Proof.
  unfold observe; destruct (is_observed t w) eqn:E.
  - destruct (Nat.eqb el t) eqn:Eel; [| reflexivity].
    apply Nat.eqb_eq in Eel; subst; rewrite E; reflexivity.
  - unfold is_observed; cbn [observed]; rewrite existsb_app; simpl.
    rewrite orb_false_r, orb_comm; reflexivity.
Qed.

(** *** Start-up *)

Lemma hide_and_observe_spec (w : World) (t el : nat) :
  nodes (hide_and_observe w t) el =
    (if Nat.eqb el t then hidden (classList (nodes w el)) else nodes w el) /\
  is_observed el (hide_and_observe w t) = Nat.eqb el t || is_observed el w /\
  in_view_rule (hide_and_observe w t) = in_view_rule w.
Proof.
  unfold hide_and_observe; rewrite is_observed_observe.
  repeat apply conj.
  - unfold observe; destruct (is_observed t _); cbn [nodes update_node];
      destruct (Nat.eqb el t); reflexivity.
  - reflexivity.
  - unfold observe; destruct (is_observed t _); reflexivity.
Qed.

Lemma setup_loop (els : list nat) :
  forall (seen : list nat) (w : World),
    (forall el,
       if is_animated seen el
       then animated_state document w el False
       else untouched document w el) ->
    forall el,
      if is_animated (seen ++ els) el
      then animated_state document (fold_left hide_and_observe els w) el False
      else untouched document (fold_left hide_and_observe els w) el.
Proof.
  induction els as [|t els IH]; intros seen w Hw el.
  - rewrite app_nil_r; apply Hw.
  - replace (seen ++ t :: els) with ((seen ++ [t]) ++ els)
      by (rewrite <- app_assoc; reflexivity).
    cbn [fold_left]; apply IH; clear el; intros el.
    destruct (hide_and_observe_spec w t el) as (Hn & Ho & _).
    specialize (Hw el).
    unfold is_animated in *; rewrite existsb_app; simpl.
    rewrite orb_false_r.
    destruct (existsb (Nat.eqb el) seen).
    + rewrite orb_true_l.
      destruct Hw as [(H1 & H2 & H3) | (_ & _ & [])].
      left; rewrite Ho, H1, orb_true_r, Hn, H2.
      destruct (Nat.eqb el t); auto.
    + rewrite orb_false_l; destruct Hw as [H1 H2].
      destruct (Nat.eqb el t) eqn:E.
      * left; rewrite Ho, Hn, H2; auto.
      * split; [rewrite Ho, H1; reflexivity | rewrite Hn; exact H2].
Qed.

Lemma setup_state (el : nat) :
  let w := setup document animatedElements in
  in_view_rule w = true /\
  if is_animated animatedElements el
  then animated_state document w el False
  else untouched document w el.
Proof.
  cbv zeta; split; [reflexivity |].
  pose proof (setup_loop animatedElements [] (mkWorld document [] false))
    as H.
  cbn [app] in H; specialize (H (fun e => conj eq_refl eq_refl) el).
  unfold setup.
  destruct (is_animated animatedElements el); exact H.
Qed.

(** *** The observer's callback *)

Lemma page_state_iff (w : World) (hit hit' : nat -> Prop) :
  (forall el, is_animated animatedElements el = true ->
              (hit el <-> hit' el)) ->
  page_state document animatedElements w hit ->
  page_state document animatedElements w hit'.
Proof.
  intros Hiff Hw el; specialize (Hw el).
  destruct (is_animated animatedElements el) eqn:E; [| exact Hw].
  specialize (Hiff el E).
  destruct Hw as [(H1 & H2 & H3) | (H1 & H2 & H3)]; [left | right];
    repeat split; tauto.
Qed.

Lemma on_entry_state (w : World) (t : nat) (b : bool) (hit : nat -> Prop) :
  is_animated animatedElements t = true ->
  page_state document animatedElements w hit ->
  page_state document animatedElements (on_entry w (t, b))
             (fun el => hit el \/ (el = t /\ b = true)).
Proof.
  intros Ht Hw; destruct b.
  - intros el; specialize (Hw el).
    unfold animated_state, untouched in *; cbn [on_entry].
    rewrite !is_observed_unobserve.
    change (is_observed el (update_node t (classList_add "in-view") w))
      with (is_observed el w).
    cbn [nodes unobserve update_node].
    destruct (Nat.eqb el t) eqn:E.
    + apply Nat.eqb_eq in E; subst el.
      rewrite Ht in *; rewrite Nat.eqb_refl.
      right; repeat split; auto.
      destruct Hw as [(_ & -> & _) | (_ & -> & _)]; unfold classList_add;
        cbn [classList hidden style_opacity style_transform style_transition].
      * reflexivity.
      * rewrite add_token_idempotent; reflexivity.
    + assert (Hne : Nat.eqb t el = false)
        by (rewrite Nat.eqb_sym; exact E).
      apply Nat.eqb_neq in E.
      destruct (is_animated animatedElements el).
      * destruct Hw as [(H1 & H2 & H3) | (H1 & H2 & H3)]; [left | right];
          rewrite Hne; repeat split; auto; tauto.
      * destruct Hw as [H1 H2]; split; [rewrite Hne |]; auto.
  - apply (page_state_iff w hit); [| exact Hw].
    intros el _; split; [auto | intros [H | [_ H]]; [exact H | discriminate]].
Qed.

Lemma observer_callback_state (entries : list (nat * bool)) :
  forall (w : World) (hit : nat -> Prop),
    (forall e, In e entries -> is_animated animatedElements (fst e) = true) ->
    page_state document animatedElements w hit ->
    page_state document animatedElements (observer_callback entries w)
               (fun el => hit el \/ In (el, true) entries).
Proof.
  unfold observer_callback.
  induction entries as [|[t b] entries IH]; intros w hit Hes Hw.
  - apply (page_state_iff w hit); [| exact Hw].
    intros el _; simpl; tauto.
  - cbn [fold_left].
    apply (page_state_iff _
             (fun el => (hit el \/ (el = t /\ b = true))
                        \/ In (el, true) entries)).
    + intros el _; simpl; split.
      * intros [[H | [-> ->]] | H]; auto.
      * intros [H | [[= -> ->] | H]]; auto.
    + apply IH; [intros e He; apply Hes, in_cons, He |].
      apply on_entry_state; [apply (Hes (t, b)), in_eq | exact Hw].
Qed.

Lemma deliver_state (w : World) (entries : list (nat * bool))
    (hit : nat -> Prop) :
  page_state document animatedElements w hit ->
  page_state document animatedElements (deliver w entries)
             (fun el => hit el \/ In (el, true) entries).
Proof.
  intros Hw; unfold deliver.
  apply (page_state_iff _
           (fun el => hit el \/
              In (el, true)
                 (filter (fun e => is_observed (fst e) w) entries))).
  - intros el Hel; rewrite filter_In; cbn [fst]; split.
    + tauto.
    + intros [H | H]; [auto |].
      specialize (Hw el); rewrite Hel in Hw.
      destruct Hw as [(H1 & _) | (_ & _ & H3)]; auto.
  - apply observer_callback_state; [| exact Hw].
    intros [t b] He; apply filter_In in He; cbn [fst] in *.
    destruct He as [_ Ho]; specialize (Hw t).
    destruct (is_animated animatedElements t); [reflexivity |].
    destruct Hw as [H1 _]; congruence.
Qed.

Lemma run_state (batches : list (list (nat * bool))) :
  page_state document animatedElements
             (run batches (setup document animatedElements))
             (intersected batches).
Proof.
  induction batches as [|batch batches IH] using rev_ind.
  - apply (page_state_iff _ (fun _ => False)).
    + intros el _; unfold intersected; split; [tauto |].
      intros (b & [] & _).
    + intros el; apply setup_state.
  - unfold run; rewrite fold_left_app; cbn [fold_left].
    fold (run batches (setup document animatedElements)).
    apply (page_state_iff _
             (fun el => intersected batches el \/ In (el, true) batch)).
    + intros el _; unfold intersected; split.
      * intros [(b & Hb & Hin) | Hin].
        -- exists b; split; [apply in_or_app; left; exact Hb | exact Hin].
        -- exists batch; split; [apply in_or_app; right; apply in_eq |
                                 exact Hin].
      * intros (b & Hb & Hin); apply in_app_or in Hb.
        destruct Hb as [Hb | [<- | []]]; [left; exists b |]; auto.
    + apply deliver_state, IH.
Qed.

Lemma run_keeps_rule (batches : list (list (nat * bool))) (w : World) :
  in_view_rule (run batches w) = in_view_rule w.
Proof.
  revert w; induction batches as [|batch batches IH]; intros w;
    [reflexivity |].
  change (run (batch :: batches) w) with (run batches (deliver w batch)).
  rewrite IH; unfold deliver, observer_callback.
  generalize (filter (fun e => is_observed (fst e) w) batch); intros es.
  revert w; induction es as [|[t [|]] es IHes]; intros w; cbn [fold_left];
    [reflexivity | rewrite IHes; reflexivity | apply IHes].
Qed.

(** X17.  An animated element is revealed by the first batch that
    reports it as intersecting, and for good.  After start-up and any
    batches of entries, an element of the selection carries [in-view]
    exactly when its markup had it or some batch reported it as
    intersecting; the observer still watches it exactly when no batch has;
    once reported it is shown with opacity [1], before that (unless the
    markup had the class) with the inline opacity [0]; and its other
    classes are those of the markup. *)
Theorem reveal_is_permanent_and_one_shot
    (batches : list (list (nat * bool))) (el : nat) :
  In el animatedElements ->
  let w := run batches (setup document animatedElements) in
  (revealed w el <->
   revealed (mkWorld document [] false) el \/ intersected batches el) /\
  (In el (observed w) <-> ~ intersected batches el) /\
  (intersected batches el -> shown_opacity w el = "1"%string) /\
  (~ intersected batches el ->
   ~ revealed (mkWorld document [] false) el ->
   shown_opacity w el = "0"%string) /\
  (forall token, token <> "in-view"%string ->
     (In token (classList (nodes w el)) <->
      In token (classList (document el)))).
Proof.
  intros Hel; cbv zeta.
  pose proof (run_state batches el) as H.
  pose proof (run_keeps_rule batches (setup document animatedElements)) as Hr.
  apply is_animated_In in Hel; rewrite Hel in H.
  unfold revealed, shown_opacity; rewrite Hr; cbn [nodes in_view_rule setup].
  rewrite <- is_observed_In.
  assert (Hex : forall tokens,
             existsb (String.eqb "in-view") tokens = true <->
             In "in-view"%string tokens).
  { intros tokens; rewrite existsb_exists; split.
    - intros (x & Hx & Heq); apply String.eqb_eq in Heq; subst; exact Hx.
    - intros Hin; exists "in-view"%string; split;
        [exact Hin | apply String.eqb_refl]. }
  destruct H as [(H1 & H2 & H3) | (H1 & H2 & H3)]; rewrite H1, H2;
    cbn [classList hidden style_opacity].
  - split; [| split; [| split; [| split]]].
    + tauto.
    + tauto.
    + tauto.
    + intros _ Hn.
      destruct (existsb (String.eqb "in-view") (classList (document el)))
        eqn:E; [apply Hex in E; tauto | reflexivity].
    + tauto.
  - split; [| split; [| split; [| split]]].
    + rewrite add_token_In; tauto.
    + split; [discriminate | tauto].
    + intros _.
      assert (E : existsb (String.eqb "in-view")
                    (add_token "in-view" (classList (document el))) = true)
        by (apply Hex, add_token_In; auto).
      rewrite E; reflexivity.
    + tauto.
    + intros token Ht; rewrite add_token_In; tauto.
Qed.

(** X18.  The script leaves every element outside the selection alone:
    whatever entries are delivered, such an element is never watched and
    its classes and inline style stay those of the markup. *)
Theorem reveal_leaves_other_elements_alone
    (batches : list (list (nat * bool))) (el : nat) :
  ~ In el animatedElements ->
  let w := run batches (setup document animatedElements) in
  nodes w el = document el /\ ~ In el (observed w).
Proof.
  intros Hel; cbv zeta.
  pose proof (run_state batches el) as H.
  destruct (is_animated animatedElements el) eqn:E.
  - apply is_animated_In in E; tauto.
  - destruct H as [H1 H2]; split; [exact H2 |].
    rewrite <- is_observed_In, H1; discriminate.
Qed.

End RevealFacts.

Lemma reveal_is_permanent_and_one_shot_witness :
  let document := fun n : nat =>
    Reveal.mkElement ["project-card"%string] EmptyString EmptyString
                     EmptyString in
  let batches := [[(1%nat, false); (2%nat, true)];
                  [(2%nat, false); (7%nat, true)]] in
  let w := Reveal.run batches (Reveal.setup document [1; 2; 3]%nat) in
  Reveal.shown_opacity w 2 = "1"%string /\
  Reveal.shown_opacity w 1 = "0"%string /\
  (In 1%nat (Reveal.observed w) <-> ~ Reveal.intersected batches 1).
Proof.
  cbv zeta; split; [| split].
  - apply (reveal_is_permanent_and_one_shot _ [1; 2; 3]%nat); simpl; auto.
    exists [(1%nat, false); (2%nat, true)]; simpl; auto.
  - apply (reveal_is_permanent_and_one_shot _ [1; 2; 3]%nat); simpl; auto.
    + intros (b & [<- | [<- | []]] & [H | [H | []]]); discriminate H.
    + unfold Reveal.revealed; simpl; intros [H | []]; discriminate H.
  - apply (reveal_is_permanent_and_one_shot _ [1; 2; 3]%nat); simpl; auto.
Defined.

Lemma reveal_leaves_other_elements_alone_witness :
  let document := fun n : nat =>
    Reveal.mkElement ["project-card"%string] EmptyString EmptyString
                     EmptyString in
  let w := Reveal.run [[(7%nat, true)]]
                      (Reveal.setup document [1; 2; 3]%nat) in
  Reveal.nodes w 7 = document 7%nat /\ ~ In 7%nat (Reveal.observed w).
Proof.
  cbv zeta.
  apply (reveal_leaves_other_elements_alone _ [1; 2; 3]%nat).
  simpl; intros [H | [H | [H | []]]]; discriminate H.
Defined.

(** ** The theme toggle *)

Section ThemeFacts.

Import Theme.

Ltac by_name name :=
  repeat match goal with
         | |- context [String.eqb name ?s] =>
             destruct (String.eqb_spec name s); [subst name; reflexivity |]
         end;
  try reflexivity.

Lemma click_outcome (w : World) :
  let w' := Js.exec onThemeToggle w in
  isDark w' = negb (isDark w) /\
  (forall name,
     root_style w' name =
     match light_value name with
     | Some v => if isDark w' then None else Some v
     | None => root_style w name
     end) /\
  dot_backgroundColor w' =
    match dot_backgroundColor w with
    | Some _ => Some (if isDark w' then EmptyString else "#111"%string)
    | None => None
    end /\
  outline_borderColor w' =
    match dot_backgroundColor w, outline_borderColor w with
    | Some _, Some _ =>
        Some (if isDark w' then EmptyString else "rgba(0,0,0,0.5)"%string)
    | _, _ => outline_borderColor w
    end /\
  Js.completes onThemeToggle w =
    match dot_backgroundColor w, outline_borderColor w with
    | Some _, Some _ => true
    | _, _ => false
    end.
Proof.
  destruct w as [[|] rs [d|] [o|]]; cbv zeta;
    (split; [reflexivity |
     split; [intros name; cbn; unfold setProperty, removeProperty,
               light_value; cbn; by_name name |
     split; [reflexivity | split; reflexivity]]]).
Qed.

Lemma clicks_succ (n : nat) (w : World) :
  clicks (S n) w = Js.exec onThemeToggle (clicks n w).
Proof. reflexivity. Qed.

(** No click adds or removes a cursor element. *)
Lemma clicks_keep_elements (n : nat) (w : World) :
  Js.completes onThemeToggle (clicks n w) = Js.completes onThemeToggle w.
Proof.
  induction n as [|n IH]; [reflexivity |].
  rewrite <- IH, clicks_succ.
  destruct (click_outcome (clicks n w)) as (_ & _ & Hdot & Hout & Hc).
  destruct (click_outcome (Js.exec onThemeToggle (clicks n w)))
    as (_ & _ & _ & _ & Hc').
  cbv zeta in *; rewrite Hc, Hc', Hdot, Hout.
  destruct (dot_backgroundColor (clicks n w)),
           (outline_borderColor (clicks n w)); reflexivity.
Qed.

(** X19.  On a page where the listener is registered (it has the
    outline element; it may lack the dot), the page's colours follow
    [isDark] after every click, whether or not the listener throws: after
    [n + 1] clicks each of the five custom properties has its light value
    when [isDark] is false and is absent when it is true, every other
    custom property is as it was before the first click, and [isDark] has
    flipped once per click.  Each of these clicks completes normally
    exactly when the page has the dot element. *)
Theorem theme_follows_isDark (n : nat) (w : World) :
  outline_borderColor w <> None ->
  let w' := clicks (S n) w in
  isDark w' = (if Nat.even (S n) then isDark w else negb (isDark w)) /\
  (forall name v, light_value name = Some v ->
     root_style w' name = if isDark w' then None else Some v) /\
  (forall name, light_value name = None ->
     root_style w' name = root_style w name) /\
  Js.completes onThemeToggle (clicks n w) =
    match dot_backgroundColor w with
    | Some _ => true
    | None => false
    end.
Proof.
  intros Hout; cbv zeta; split; [| split; [| split]].
  - induction n as [|n IH].
    + apply (click_outcome w).
    + rewrite clicks_succ.
      destruct (click_outcome (clicks (S n) w)) as (Hd & _).
      cbv zeta in Hd; rewrite Hd, IH.
      change (Nat.even (S (S n))) with (Nat.even n).
      rewrite Nat.even_succ, <- Nat.negb_even.
      destruct (Nat.even n), (isDark w); reflexivity.
  - intros name v Hv; rewrite clicks_succ.
    destruct (click_outcome (clicks n w)) as (_ & Hr & _).
    cbv zeta in Hr; rewrite Hr, Hv; reflexivity.
  - induction n as [|n IH]; intros name Hv; rewrite clicks_succ.
    + destruct (click_outcome w) as (_ & Hr & _).
      cbv zeta in Hr; change (clicks 0 w) with w; rewrite Hr, Hv.
      reflexivity.
    + destruct (click_outcome (clicks (S n) w)) as (_ & Hr & _).
      cbv zeta in Hr; rewrite Hr, Hv; apply IH, Hv.
  - rewrite clicks_keep_elements.
    destruct (click_outcome w) as (_ & _ & _ & _ & Hc); rewrite Hc.
    destruct (dot_backgroundColor w), (outline_borderColor w);
      try reflexivity; congruence.
Qed.

(** Three clicks on a page without the dot element: each click throws,
    and the page is light all the same. *)
Lemma theme_follows_isDark_witness :
  let w := loaded (fun _ => None) None EmptyString in
  isDark (clicks 3 w) = false /\
  root_style (clicks 3 w) "--surface"%string = Some "#f3f4f6"%string /\
  Js.completes onThemeToggle (clicks 2 w) = false.
Proof.
  cbv zeta.
  destruct (theme_follows_isDark 2
              (loaded (fun _ => None) None EmptyString))
    as (Hd & Hl & _ & Hc); [discriminate |].
  split; [exact Hd | split; [| exact Hc]].
  rewrite (Hl "--surface"%string "#f3f4f6"%string eq_refl), Hd; reflexivity.
Defined.

(** X20.  After the first click the theme depends only on the parity of
    the number of clicks: two further clicks always restore [isDark], every
    custom property of the root, and both cursor colours.  From the
    script's start state, with none of the five properties set inline and
    the cursor colours not set inline, two clicks restore the start state
    itself. *)
Theorem theme_toggle_has_period_two (n : nat) (w : World) :
  same_theme (clicks (3 + n) w) (clicks (1 + n) w) /\
  (isDark w = true ->
   (forall name v, light_value name = Some v -> root_style w name = None) ->
   dot_backgroundColor w = None \/ dot_backgroundColor w = Some EmptyString ->
   outline_borderColor w = None \/
     outline_borderColor w = Some EmptyString ->
   same_theme (clicks 2 w) w).
Proof.
  split.
  - cbn [Nat.add]; rewrite !clicks_succ.
    generalize (clicks n w); intros w0.
    destruct w0 as [[|] rs [d|] [o|]]; unfold same_theme; cbn;
      (split; [reflexivity |
       split; [intros name; unfold setProperty, removeProperty; cbn;
                 by_name name |
       split; reflexivity]]).
  - intros Hd Hr Hdot Hout.
    destruct w as [dk rs dot out]; cbn in Hd, Hr, Hdot, Hout; subst dk.
    assert (Hrs : forall name,
               removeProperty "--border"
                 (removeProperty "--surface"
                    (removeProperty "--text-secondary"
                       (removeProperty "--text-color"
                          (removeProperty "--bg-color"
                             (setProperty "--border" "#e5e7eb"
                                (setProperty "--surface" "#f3f4f6"
                                   (setProperty "--text-secondary" "#555555"
                                      (setProperty "--text-color" "#111111"
                                         (setProperty "--bg-color" "#ffffff"
                                            rs))))))))) name = rs name).
    { intros name; unfold setProperty, removeProperty.
      repeat match goal with
             | |- context [String.eqb name ?s] =>
                 destruct (String.eqb_spec name s);
                   [subst name; cbn; symmetry; eapply Hr; reflexivity |]
             end; reflexivity. }
    destruct Hdot as [-> | ->], Hout as [-> | ->]; unfold same_theme; cbn;
      (split; [reflexivity | split; [exact Hrs | split; reflexivity]]).
Qed.

Lemma theme_toggle_has_period_two_witness :
  let w := loaded (fun _ => None) (Some EmptyString) EmptyString in
  same_theme (clicks 2 w) w.
Proof.
  cbv zeta; apply (proj2 (theme_toggle_has_period_two 0 _)); cbn; auto.
Defined.

End ThemeFacts.
